(** * Dynamic route activation of echo_service

    Shallow embedding of [_activate_routes] (src/echo_service/web/lifetime.py)
    together with the parts of its collaborators that decide its behaviour:
    the Starlette routing table behind [app.add_route], the [JSONResponse]
    built by the produced handler, and the closure cell through which every
    [dynamic_route] reads the loop variable [endpoint].

    Python strings are modelled as [string] (sequences of 8-bit characters).
    Routing follows Starlette 0.46: [Route] compiles its path template into a
    regular expression ([compile_path]), and the router matches each route's
    expression against the request path in table order, with the
    trailing-slash redirect of [Router.app]. *)

From Stdlib Require Import String Ascii List ZArith Lia.
From stdpp Require Import base gmap strings list.

Import ListNotations.
Local Open Scope string_scope.

(* ------------------------------------------------------------------ *)
(** ** Data model *)

(** [Methods] of src/echo_service/web/api/endpoints/schemas/base.py. *)
Inductive Methods := GET | POST | PUT | PATCH | DELETE.

Definition Methods_value (m : Methods) : string :=
  match m with
  | GET => "GET" | POST => "POST" | PUT => "PUT"
  | PATCH => "PATCH" | DELETE => "DELETE"
  end.

(** Modelled from the spec: the ORM model [Endpoint]
    (echo_service/db/models/endpoint.py) is not under src/.  Its accessors
    [get_id], [get_verb], [get_path], [get_code], [get_headers] and
    [get_body] give the stored id and the fields of the [Attributes] and
    [Response] schemas of base.py: a verb, a path, an integer status code,
    an optional header dict (insertion-ordered) and an optional body. *)
Record Endpoint := mkEndpoint {
  get_id : string;
  get_verb : Methods;
  get_path : string;
  get_code : Z;
  get_headers : option (list (string * string));
  get_body : option string
}.

(** Exceptions that can escape [_activate_routes]. *)
Inductive exn :=
  | StorageUnavailable   (* the query of the endpoint table failed *)
  | InvalidArgument      (* make_endpoint_name rejected its id *)
  | AssertionError       (* Starlette's Route: path must start with '/',
                            or an unknown path convertor *)
  | ValueError           (* Starlette's compile_path: repeated parameter
                            name; int() of too many digits *)
  | NameError.           (* a closure read an unbound free variable *)

Inductive Result (A : Type) := Ok (a : A) | Err (e : exn).
Arguments Ok {A} a.
Arguments Err {A} e.

(* ------------------------------------------------------------------ *)
(** ** Route names *)

Definition route_namespace : string := "endpoint:".

(** Modelled from the spec: [make_endpoint_name]
    (echo_service/web/api/endpoints/utils.py) is not under src/.  Following
    the spec (section 4.1) it prefixes the id with a fixed namespace token and
    rejects an empty id with [InvalidArgument]. *)
Definition make_endpoint_name (id : string) : Result string :=
  match id with
  | EmptyString => Err InvalidArgument
  | _ => Ok (route_namespace ++ id)
  end.

(* ------------------------------------------------------------------ *)
(** ** JSONResponse (starlette.responses) *)

Definition chr (n : nat) : ascii := ascii_of_nat n.
Definition str1 (c : ascii) : string := String c EmptyString.

Definition hex_digit (n : nat) : ascii :=
  if Nat.ltb n 10 then chr (48 + n) else chr (87 + n).

(** One character as [json.dumps(..., ensure_ascii=False)] writes it inside
    a string literal (Python's [py_encode_basestring]). *)
Definition json_escape_char (c : ascii) : string :=
  let n := nat_of_ascii c in
  if Nat.eqb n 34 then String (chr 92) (str1 (chr 34))
  else if Nat.eqb n 92 then String (chr 92) (str1 (chr 92))
  else if Nat.eqb n 10 then String (chr 92) (str1 "n"%char)
  else if Nat.eqb n 13 then String (chr 92) (str1 "r"%char)
  else if Nat.eqb n 9 then String (chr 92) (str1 "t"%char)
  else if Nat.eqb n 8 then String (chr 92) (str1 "b"%char)
  else if Nat.eqb n 12 then String (chr 92) (str1 "f"%char)
  else if Nat.ltb n 32 then
    String (chr 92) (String "u"%char (String "0"%char (String "0"%char
      (String (hex_digit (n / 16)) (str1 (hex_digit (n mod 16)))))))
  else str1 c.

Fixpoint json_escape (s : string) : string :=
  match s with
  | EmptyString => EmptyString
  | String c s' => json_escape_char c ++ json_escape s'
  end.

(** [JSONResponse.render]: [json.dumps(content, ensure_ascii=False, ...)]
    of an [Optional[str]] content, encoded as UTF-8. *)
Definition render (content : option string) : string :=
  match content with
  | None => "null"
  | Some s => String (chr 34) (json_escape s ++ str1 (chr 34))
  end.

Definition ascii_lower (c : ascii) : ascii :=
  let n := nat_of_ascii c in
  if Nat.leb 65 n && Nat.leb n 90 then chr (n + 32) else c.

Fixpoint lower (s : string) : string :=
  match s with
  | EmptyString => EmptyString
  | String c s' => String (ascii_lower c) (lower s')
  end.

Fixpoint digits_fuel (fuel n : nat) (acc : string) : string :=
  match fuel with
  | O => acc
  | S fuel' =>
      let acc' := String (chr (48 + n mod 10)) acc in
      if Nat.ltb n 10 then acc' else digits_fuel fuel' (n / 10) acc'
  end.

(** [str(n)] for a natural number. *)
Definition str_of_nat (n : nat) : string := digits_fuel (S n) n EmptyString.

Definition media_type : string := "application/json".

(** A response as Starlette holds it: status, raw header list, body bytes. *)
Record JSONResponse := mkJSONResponse {
  status_code : Z;
  raw_headers : list (string * string);
  body : string
}.

(** [Response.init_headers] for a rendered [body]. *)
Definition init_headers (headers : option (list (string * string)))
    (status : Z) (bdy : string) : list (string * string) :=
  let '(raw, pop_len, pop_type) :=
    match headers with
    | None => ([], true, true)
    | Some hs =>
        let raw := map (fun '(k, v) => (lower k, v)) hs in
        let keys := map fst raw in
        (raw,
         negb (existsb (String.eqb "content-length") keys),
         negb (existsb (String.eqb "content-type") keys))
    end in
  let raw :=
    if pop_len && negb (Z.ltb status 200 || Z.eqb status 204 || Z.eqb status 304)
    then app raw [("content-length", str_of_nat (String.length bdy))]
    else raw in
  if pop_type then app raw [("content-type", media_type)] else raw.

(** [JSONResponse(content=..., headers=..., status_code=...)]. *)
Definition json_response (content : option string)
    (headers : option (list (string * string))) (code : Z) : JSONResponse :=
  let bdy := render content in
  {| status_code := code;
     raw_headers := init_headers headers code bdy;
     body := bdy |}.

(* ------------------------------------------------------------------ *)
(** ** Path templates ([starlette.routing.compile_path]) *)

Definition char_between (lo hi : nat) (c : ascii) : bool :=
  let n := nat_of_ascii c in Nat.leb lo n && Nat.leb n hi.

Definition is_digit (c : ascii) : bool := char_between 48 57 c.

Definition is_hex (c : ascii) : bool :=
  is_digit c || char_between 97 102 c || char_between 65 70 c.

(** [[a-zA-Z_]] and [[a-zA-Z0-9_]] of [PARAM_REGEX]. *)
Definition is_ident_start (c : ascii) : bool :=
  char_between 65 90 c || char_between 97 122 c || Nat.eqb (nat_of_ascii c) 95.

Definition is_ident_char (c : ascii) : bool := is_ident_start c || is_digit c.

Fixpoint span_ident (s : string) : string * string :=
  match s with
  | String c s' =>
      if is_ident_char c then let '(a, r) := span_ident s' in (String c a, r)
      else (EmptyString, s)
  | EmptyString => (EmptyString, EmptyString)
  end.

(** [[a-zA-Z_][a-zA-Z0-9_]*] at the start of [s] (greedy), and the rest. *)
Definition ident_at (s : string) : option (string * string) :=
  match s with
  | String c s' =>
      if is_ident_start c then let '(a, r) := span_ident s' in Some (String c a, r)
      else None
  | EmptyString => None
  end.

(** A match of [PARAM_REGEX] at the start of [s]: '{', an identifier (the
    parameter name), optionally ':' and a second identifier (the convertor
    group), then '}'.  The result is the name, the convertor without its ':'
    (if present) and the rest.  Both identifiers are greedy and are
    followed by a character they cannot contain, so backtracking never finds
    another match. *)
Definition param_at (s : string) : option (string * option string * string) :=
  match s with
  | String c s1 =>
      if Ascii.eqb c "{"%char then
        match ident_at s1 with
        | Some (name, String c2 r) =>
            if Ascii.eqb c2 "}"%char then Some (name, None, r)
            else if Ascii.eqb c2 ":"%char then
              match ident_at r with
              | Some (conv, String c3 r') =>
                  if Ascii.eqb c3 "}"%char then Some (name, Some conv, r') else None
              | _ => None
              end
            else None
        | _ => None
        end
      else None
  | EmptyString => None
  end.

(** [PARAM_REGEX.finditer(path)]: the text before the first match, then for
    each match its name, its convertor group and the text up to the next
    match.  Every step consumes a character, so [String.length path] steps
    reach the end of [path]. *)
Fixpoint scan_params (fuel : nat) (s : string)
    : string * list (string * option string * string) :=
  match fuel, s with
  | O, _ => (s, [])
  | S _, EmptyString => (EmptyString, [])
  | S fuel', String c s' =>
      match param_at s with
      | Some (name, conv, rest) =>
          let '(lit, ms) := scan_params fuel' rest in (EmptyString, (name, conv, lit) :: ms)
      | None =>
          let '(lit, ms) := scan_params fuel' s' in (String c lit, ms)
      end
  end.

(** The convertors of [starlette.convertors.CONVERTOR_TYPES]. *)
Inductive Convertor :=
  | StringConvertor | PathConvertor | IntegerConvertor | FloatConvertor | UUIDConvertor.

Definition CONVERTOR_TYPES (t : string) : option Convertor :=
  if String.eqb t "str" then Some StringConvertor
  else if String.eqb t "path" then Some PathConvertor
  else if String.eqb t "int" then Some IntegerConvertor
  else if String.eqb t "float" then Some FloatConvertor
  else if String.eqb t "uuid" then Some UUIDConvertor
  else None.

(** A compiled path [^lit0(?P<name1>regex1)lit1...$]: escaped literal text
    and named groups, each with the regex of its convertor. *)
Inductive PathTok := PLit (s : string) | PParam (name : string) (c : Convertor).

(** The loop of [compile_path] over the matches: [convertor_type] defaults to
    "str", and [assert convertor_type in CONVERTOR_TYPES] stops it. *)
Fixpoint params_toks (ms : list (string * option string * string)) : Result (list PathTok) :=
  match ms with
  | [] => Ok []
  | (name, conv, lit) :: ms' =>
      match CONVERTOR_TYPES (match conv with Some t => t | None => "str" end) with
      | None => Err AssertionError
      | Some c =>
          match params_toks ms' with
          | Ok ts => Ok (PParam name c :: PLit lit :: ts)
          | Err e => Err e
          end
      end
  end.

Fixpoint has_dup (l : list string) : bool :=
  match l with
  | [] => false
  | x :: l' => existsb (String.eqb x) l' || has_dup l'
  end.

(** [compile_path(path)] for a path starting with '/': an unknown convertor
    fails the assertion, a repeated parameter name raises [ValueError] after
    the loop. *)
Definition compile_path (path : string) : Result (list PathTok) :=
  let '(lit0, ms) := scan_params (String.length path) path in
  match params_toks ms with
  | Err e => Err e
  | Ok ts =>
      if has_dup (map (fun '(name, _, _) => name) ms) then Err ValueError
      else Ok (PLit lit0 :: ts)
  end.

(* ------------------------------------------------------------------ *)
(** ** Matching a compiled path ([self.path_regex.match(route_path)]) *)

Fixpoint str_take (n : nat) (s : string) : string :=
  match n, s with
  | O, _ => EmptyString
  | S n', String c s' => String c (str_take n' s')
  | S _, EmptyString => EmptyString
  end.

Fixpoint str_drop (n : nat) (s : string) : string :=
  match n, s with
  | O, _ => s
  | S n', String _ s' => str_drop n' s'
  | S _, EmptyString => EmptyString
  end.

(** Length of the longest prefix of [s] whose characters satisfy [p]. *)
Fixpoint run_length (p : ascii -> bool) (s : string) : nat :=
  match s with
  | String c s' => if p c then S (run_length p s') else O
  | EmptyString => O
  end.

(** [n; n-1; ...; 1]: the lengths a greedy [x+] tries, in order. *)
Fixpoint seq_down (n : nat) : list nat :=
  match n with
  | O => []
  | S m => n :: seq_down m
  end.

Definition not_slash (c : ascii) : bool := negb (Ascii.eqb c "/"%char).
Definition not_newline (c : ascii) : bool := negb (Nat.eqb (nat_of_ascii c) 10).

(** [[0-9]+(\.[0-9]+)?]: the ends it tries, in backtracking order. *)
Definition float_ends (s : string) : list nat :=
  let n := run_length is_digit s in
  match n with
  | O => []
  | S _ =>
      app (match String.get n s with
           | Some c =>
               if Ascii.eqb c "."%char
               then map (fun k => n + 1 + k) (seq_down (run_length is_digit (str_drop (S n) s)))
               else []
           | None => []
           end)
          (seq_down n)
  end.

(** [-?[0-9a-fA-F]{n}] for each [n] of [blocks] in turn: the ends tried, in
    backtracking order (the optional '-' is tried first). *)
Fixpoint uuid_blocks (blocks : list nat) (s : string) : list nat :=
  match blocks with
  | [] => [0]
  | n :: rest =>
      app (match s with
           | String c s' =>
               if Ascii.eqb c "-"%char && Nat.leb n (run_length is_hex s')
               then map (fun k => S n + k) (uuid_blocks rest (str_drop n s'))
               else []
           | EmptyString => []
           end)
          (if Nat.leb n (run_length is_hex s)
           then map (fun k => n + k) (uuid_blocks rest (str_drop n s)) else [])
  end.

(** [[0-9a-fA-F]{8}-?[0-9a-fA-F]{4}-?[0-9a-fA-F]{4}-?[0-9a-fA-F]{4}-?[0-9a-fA-F]{12}]. *)
Definition uuid_ends (s : string) : list nat :=
  if Nat.leb 8 (run_length is_hex s)
  then map (fun k => 8 + k) (uuid_blocks [4; 4; 4; 12] (str_drop 8 s)) else [].

(** The lengths a convertor's regex can match at the start of [s], in the
    order Python's backtracking tries them: [[^/]+], [.*] (no newline),
    [[0-9]+], the float and the uuid regex. *)
Definition convertor_ends (c : Convertor) (s : string) : list nat :=
  match c with
  | StringConvertor => seq_down (run_length not_slash s)
  | PathConvertor => app (seq_down (run_length not_newline s)) [0]
  | IntegerConvertor => seq_down (run_length is_digit s)
  | FloatConvertor => float_ends s
  | UUIDConvertor => uuid_ends s
  end.

Fixpoint first_some {A : Type} (f : nat -> option A) (l : list nat) : option A :=
  match l with
  | [] => None
  | k :: l' => match f k with Some a => Some a | None => first_some f l' end
  end.

(** Python's [$] without MULTILINE: the end of the string, or just before a
    newline that ends it. *)
Definition at_end (s : string) : bool :=
  String.eqb s EmptyString || String.eqb s (str1 (chr 10)).

(** [re.match] of the compiled path against [s]: the first match in
    backtracking order, with the text of each group and its convertor. *)
Fixpoint regex_match (ts : list PathTok) (s : string) : option (list (Convertor * string)) :=
  match ts with
  | [] => if at_end s then Some [] else None
  | PLit l :: ts' =>
      if String.prefix l s then regex_match ts' (str_drop (String.length l) s) else None
  | PParam _ c :: ts' =>
      first_some (fun k => option_map (cons (c, str_take k s)) (regex_match ts' (str_drop k s)))
                 (convertor_ends c s)
  end.

(** [self.param_convertors[key].convert(value)] for every group: only
    [int(value)] can raise, a [ValueError] beyond Python's default limit of
    4300 digits for decimal strings ([sys.int_info.default_max_str_digits]);
    [float] and [uuid.UUID] accept whatever their regex matched. *)
Definition convert_ok (caps : list (Convertor * string)) : bool :=
  forallb (fun '(c, v) =>
             match c with
             | IntegerConvertor => Nat.leb (String.length v) 4300
             | _ => true
             end) caps.

(* ------------------------------------------------------------------ *)
(** ** The routing table (starlette.routing) and the application state *)

(** The callable a route dispatches to.  [DynamicRoute f] is the function
    object [dynamic_route] created inside the activation frame [f]: its
    only free variable is the cell of [endpoint] in that frame.
    [OtherRoute n] stands for any route the application registered by other
    means (the management API and the like). *)
Inductive Handler :=
  | DynamicRoute (frame : nat)
  | OtherRoute (n : nat).

(** A [Route]: its path, the compiled [path_regex], its endpoint, its
    methods ([[]] for [methods=None], which accepts every method) and its
    name. *)
Record Route := mkRoute {
  route_path : string;
  route_regex : list PathTok;
  route_endpoint : Handler;
  route_methods : list string;
  route_name : string
}.

(** The application: its routing table [app.router.routes], the local
    variable cells of the [_activate_routes] frames ([frame] -> value of
    [endpoint]), and the next frame number. *)
Record AppState := mkAppState {
  routes : list Route;
  cells : gmap nat Endpoint;
  next_frame : nat
}.

(** [Route.__init__]: [{method.upper() for method in methods}], plus HEAD
    when GET is present. *)
Definition route_methods_of (methods : list Methods) : list string :=
  app (map Methods_value methods)
      (if existsb (fun m => match m with GET => true | _ => false end) methods
       then ["HEAD"] else []).

(** [app.add_route(path, endpoint, methods=..., name=...)]: Starlette builds a
    [Route] (asserting that the path starts with '/', then compiling it) and
    appends it to the routing table; there is no check of names or of
    (path, method) pairs. *)
Definition add_route (st : AppState) (path : string) (endpoint : Handler)
    (methods : list Methods) (name : string) : AppState * Result unit :=
  if String.prefix "/" path then
    match compile_path path with
    | Ok toks =>
        ({| routes := app (routes st)
                        [{| route_path := path; route_regex := toks;
                            route_endpoint := endpoint;
                            route_methods := route_methods_of methods;
                            route_name := name |}];
            cells := cells st; next_frame := next_frame st |}, Ok tt)
    | Err e => (st, Err e)
    end
  else (st, Err AssertionError).

(** Assignment of the loop variable [endpoint] in frame [f]. *)
Definition set_endpoint (st : AppState) (f : nat) (e : Endpoint) : AppState :=
  {| routes := routes st; cells := <[f := e]> (cells st);
     next_frame := next_frame st |}.

(* ------------------------------------------------------------------ *)
(** ** [_activate_routes] *)

(** The [for endpoint in endpoints.scalars():] loop of frame [f]: bind the
    loop variable, define [dynamic_route] (a closure over the cell of
    [endpoint] in frame [f]), evaluate the arguments of [app.add_route]
    (among them [make_endpoint_name(endpoint.get_id)]) and call it.  Any
    exception leaves the loop with the state reached so far.  The
    [logging.info] call has no effect on the state. *)
Fixpoint activate_loop (f : nat) (endpoints : list Endpoint) (st : AppState)
    : AppState * Result unit :=
  match endpoints with
  | [] => (st, Ok tt)
  | endpoint :: rest =>
      let st1 := set_endpoint st f endpoint in
      match make_endpoint_name (get_id endpoint) with
      | Err e => (st1, Err e)
      | Ok name =>
          match add_route st1 (get_path endpoint) (DynamicRoute f)
                  [get_verb endpoint] name with
          | (st2, Err e) => (st2, Err e)
          | (st2, Ok _) => activate_loop f rest st2
          end
      end
  end.

(** [_activate_routes(app)]: a fresh frame, then the query
    [session.execute(select(Endpoint))] whose outcome is [db] (the rows, or
    the exception it raised), then the loop. *)
Definition _activate_routes (db : Result (list Endpoint)) (st : AppState)
    : AppState * Result unit :=
  let f := next_frame st in
  let st0 := {| routes := routes st; cells := cells st; next_frame := S f |} in
  match db with
  | Err e => (st0, Err e)
  | Ok endpoints => activate_loop f endpoints st0
  end.

(* ------------------------------------------------------------------ *)
(** ** Dispatch and the produced handler *)

(** An HTTP request as the router sees it: [scope["method"]] and
    [scope["path"]] (with no [root_path], so the route path is the path). *)
Record Request := mkRequest {
  req_method : string;
  req_path : string;
  req_headers : list (string * string);
  req_body : string
}.

(** The body of [dynamic_route(req)]: read [endpoint] from the cell of its
    frame at call time and build the [JSONResponse]; [req] is not used. *)
Definition dynamic_route (cs : gmap nat Endpoint) (f : nat) (req : Request)
    : Result JSONResponse :=
  match cs !! f with
  | Some endpoint =>
      Ok (json_response (get_body endpoint) (get_headers endpoint)
            (get_code endpoint))
  | None => Err NameError
  end.

(** [starlette.routing.Match]. *)
Module Match.
Inductive t := NONE | PARTIAL | FULL.
End Match.

(** [Route.matches(scope)] for an HTTP scope: the path regex, then the
    conversion of the groups, then the method. *)
Definition route_matches (r : Route) (method path : string) : Result Match.t :=
  match regex_match (route_regex r) path with
  | None => Ok Match.NONE
  | Some caps =>
      if convert_ok caps then
        match route_methods r with
        | [] => Ok Match.FULL
        | ms => if existsb (String.eqb method) ms then Ok Match.FULL else Ok Match.PARTIAL
        end
      else Err ValueError
  end.

Inductive Scan := ScanFull (r : Route) | ScanPartial (r : Route) | ScanNone.

(** [Router.app]'s scan of the routes: the first full match wins; the first
    partial match is remembered; an exception of [matches] propagates. *)
Fixpoint match_routes (rs : list Route) (req : Request) (partial : option Route)
    : Result Scan :=
  match rs with
  | [] => Ok (match partial with Some r => ScanPartial r | None => ScanNone end)
  | r :: rs' =>
      match route_matches r (req_method req) (req_path req) with
      | Err e => Err e
      | Ok Match.FULL => Ok (ScanFull r)
      | Ok Match.PARTIAL =>
          match_routes rs' req (match partial with None => Some r | Some _ => partial end)
      | Ok Match.NONE => match_routes rs' req partial
      end
  end.

Fixpoint ends_with_slash (s : string) : bool :=
  match s with
  | EmptyString => false
  | String c EmptyString => Ascii.eqb c "/"%char
  | String _ s' => ends_with_slash s'
  end.

(** [s.rstrip("/")]. *)
Fixpoint rstrip_slash (s : string) : string :=
  match s with
  | EmptyString => EmptyString
  | String c s' =>
      let r := rstrip_slash s' in
      if Ascii.eqb c "/"%char && String.eqb r EmptyString then EmptyString else String c r
  end.

(** The path of [redirect_scope] in [Router.app]. *)
Definition redirect_path (path : string) : string :=
  if ends_with_slash path then rstrip_slash path else path ++ "/".

(** The second scan of [Router.app]: whether some route matches the
    redirect path at all ([match != Match.NONE]). *)
Fixpoint redirect_scan (rs : list Route) (method path : string) : Result bool :=
  match rs with
  | [] => Ok false
  | r :: rs' =>
      match route_matches r method path with
      | Err e => Err e
      | Ok Match.NONE => redirect_scan rs' method path
      | Ok _ => Ok true
      end
  end.

Inductive Outcome :=
  | Served (r : Result JSONResponse)
  | OtherApp (n : nat)
  | MethodNotAllowed                    (* [Route.handle] of the partial match: 405 *)
  | Redirect (path : string)            (* [RedirectResponse]: 307 *)
  | NotFound                            (* [Router.default]: 404 *)
  | Raised (e : exn).                   (* an exception of the router itself *)

(** Calling the callable of a route on a request. *)
Definition invoke (st : AppState) (h : Handler) (req : Request) : Outcome :=
  match h with
  | DynamicRoute f => Served (dynamic_route (cells st) f req)
  | OtherRoute n => OtherApp n
  end.

(** [Router.app] for an HTTP request ([redirect_slashes=True]). *)
Definition dispatch (st : AppState) (req : Request) : Outcome :=
  match match_routes (routes st) req None with
  | Err e => Raised e
  | Ok (ScanFull r) => invoke st (route_endpoint r) req
  | Ok (ScanPartial _) => MethodNotAllowed
  | Ok ScanNone =>
      if String.eqb (req_path req) "/" then NotFound
      else
        let p := redirect_path (req_path req) in
        match redirect_scan (routes st) (req_method req) p with
        | Err e => Raised e
        | Ok true => Redirect p
        | Ok false => NotFound
        end
  end.

Definition empty_app : AppState :=
  {| routes := []; cells := ∅; next_frame := 0 |}.

(* ------------------------------------------------------------------ *)
(** ** Vocabulary of the statements *)

(** The routes an activation appended to the table of [st]. *)
Definition added_routes (st st' : AppState) : list Route :=
  skipn (length (routes st)) (routes st').

(** The compiled path of a record that got through [add_route]. *)
Definition path_regex (path : string) : list PathTok :=
  match compile_path path with Ok toks => toks | Err _ => [] end.

(** The route the loop of frame [f] appends for [e] when it gets that far. *)
Definition route_for (f : nat) (e : Endpoint) : Route :=
  {| route_path := get_path e; route_regex := path_regex (get_path e);
     route_endpoint := DynamicRoute f;
     route_methods := route_methods_of [get_verb e];
     route_name := route_namespace ++ get_id e |}.

(** Whether the loop gets past [e] without an exception: the id is accepted
    by [make_endpoint_name], and [Route] accepts the path (it starts with
    '/' and compiles). *)
Definition registrable (e : Endpoint) : bool :=
  match make_endpoint_name (get_id e) with
  | Ok _ =>
      String.prefix "/" (get_path e) &&
      match compile_path (get_path e) with Ok _ => true | Err _ => false end
  | Err _ => false
  end.

Fixpoint registrable_prefix (endpoints : list Endpoint) : nat :=
  match endpoints with
  | [] => 0
  | e :: rest => if registrable e then S (registrable_prefix rest) else 0
  end.

(* ------------------------------------------------------------------ *)
(** ** Concrete records used by the statements below *)

Definition R1 : Endpoint := mkEndpoint "a" GET "/r1" 201 None (Some "A").
Definition R2 : Endpoint := mkEndpoint "b" POST "/r2" 404 None (Some "B").

(** The end-to-end record of the spec: GET /ping answering 200 "pong". *)
Definition ping : Endpoint := mkEndpoint "e1" GET "/ping" 200 None (Some "pong").

(** A record whose path names an unknown convertor. *)
Definition R3 : Endpoint := mkEndpoint "c" GET "/r3/{x:bogus}" 200 None (Some "C").

(** A record whose path has a parameter. *)
Definition U : Endpoint := mkEndpoint "u" GET "/u/{x}" 200 None (Some "U").

Definition request (method path : string) : Request := mkRequest method path [] "".

(* ------------------------------------------------------------------ *)
(** ** JSON values and [_http_exception_handler] *)

(** The Python values [json.dumps] meets in this code: [None], booleans,
    [int], [str], lists and dicts (with string keys, in insertion order). *)
#[warnings="-register-all"]
Inductive JsonValue :=
  | JNull
  | JBool (b : bool)
  | JInt (z : Z)
  | JStr (s : string)
  | JList (l : list JsonValue)
  | JObject (kvs : list (string * JsonValue)).

(** [str(z)] for a Python [int]. *)
Definition str_of_Z (z : Z) : string :=
  if Z.ltb z 0 then "-" ++ str_of_nat (Z.to_nat (- z)) else str_of_nat (Z.to_nat z).

Definition json_quote (s : string) : string :=
  String (chr 34) (json_escape s ++ str1 (chr 34)).

(** [json.dumps(v, ensure_ascii=False, allow_nan=False, indent=None,
    separators=(",", ":"))], the encoder of [JSONResponse.render]. *)
Fixpoint json_dumps (v : JsonValue) : string :=
  match v with
  | JNull => "null"
  | JBool true => "true"
  | JBool false => "false"
  | JInt z => str_of_Z z
  | JStr s => json_quote s
  | JList l =>
      "[" ++ (fix items (l : list JsonValue) : string :=
                match l with
                | [] => ""
                | [x] => json_dumps x
                | x :: xs => json_dumps x ++ "," ++ items xs
                end) l ++ "]"
  | JObject kvs =>
      "{" ++ (fix members (kvs : list (string * JsonValue)) : string :=
                match kvs with
                | [] => ""
                | [(k, x)] => json_quote k ++ ":" ++ json_dumps x
                | (k, x) :: rest => json_quote k ++ ":" ++ json_dumps x ++ "," ++ members rest
                end) kvs ++ "}"
  end.

(** Whether [needle] occurs in [hay] ([needle in hay]). *)
Fixpoint contains (needle hay : string) : bool :=
  String.prefix needle hay ||
  match hay with
  | EmptyString => false
  | String _ hay' => contains needle hay'
  end.

(** [Response.init_headers] for an arbitrary [media_type] (a [text/] media
    type that names no charset gets "; charset=utf-8" appended). *)
Definition init_headers_for (media : string) (headers : option (list (string * string)))
    (status : Z) (bdy : string) : list (string * string) :=
  let '(raw, pop_len, pop_type) :=
    match headers with
    | None => ([], true, true)
    | Some hs =>
        let raw := map (fun '(k, v) => (lower k, v)) hs in
        let keys := map fst raw in
        (raw,
         negb (existsb (String.eqb "content-length") keys),
         negb (existsb (String.eqb "content-type") keys))
    end in
  let raw :=
    if pop_len && negb (Z.ltb status 200 || Z.eqb status 204 || Z.eqb status 304)
    then app raw [("content-length", str_of_nat (String.length bdy))]
    else raw in
  let ctype :=
    if String.prefix "text/" media && negb (contains "charset=" (lower media))
    then media ++ "; charset=utf-8" else media in
  if pop_type then app raw [("content-type", ctype)] else raw.

(** [JSONResponse(content=v, status_code=..., headers=..., media_type=...)]. *)
Definition json_response_for (media : string) (v : JsonValue)
    (headers : option (list (string * string))) (code : Z) : JSONResponse :=
  let bdy := json_dumps v in
  {| status_code := code;
     raw_headers := init_headers_for media headers code bdy;
     body := bdy |}.

(** [fastapi.HTTPException] as the handler sees it: status code, detail
    (any JSON-serialisable value) and optional headers. *)
Record HTTPException := mkHTTPException {
  exc_status_code : Z;
  exc_detail : JsonValue;
  exc_headers : option (list (string * string))
}.

(** [_http_exception_handler(request, exc)] of [register_exception_handler];
    [MEDIA_TYPE] is the constant of echo_service.constants (not under src/),
    kept as a parameter. *)
Definition _http_exception_handler (MEDIA_TYPE : string) (request : Request)
    (exc : HTTPException) : JSONResponse :=
  let response :=
    JObject [("errors", JList [JObject [("code", JInt (exc_status_code exc));
                                         ("detail", exc_detail exc)]])] in
  json_response_for MEDIA_TYPE response None (exc_status_code exc).

(* ------------------------------------------------------------------ *)
(** ** Reading back a JSON string literal *)

Definition hex_val (c : ascii) : option nat :=
  let n := nat_of_ascii c in
  if Nat.leb 48 n && Nat.leb n 57 then Some (n - 48)
  else if Nat.leb 97 n && Nat.leb n 102 then Some (n - 87)
  else if Nat.leb 65 n && Nat.leb n 70 then Some (n - 55)
  else None.

(** The body of a JSON string literal decoded back (the escapes [json.loads]
    accepts, restricted to code points below 256). *)
Fixpoint json_unescape (s : string) : option string :=
  match s with
  | EmptyString => Some EmptyString
  | String c rest =>
      if Ascii.eqb c (chr 92) then
        match rest with
        | EmptyString => None
        | String e rest' =>
            let n := nat_of_ascii e in
            if Nat.eqb n 34 then option_map (String (chr 34)) (json_unescape rest')
            else if Nat.eqb n 92 then option_map (String (chr 92)) (json_unescape rest')
            else if Nat.eqb n 47 then option_map (String (chr 47)) (json_unescape rest')
            else if Nat.eqb n 110 then option_map (String (chr 10)) (json_unescape rest')
            else if Nat.eqb n 114 then option_map (String (chr 13)) (json_unescape rest')
            else if Nat.eqb n 116 then option_map (String (chr 9)) (json_unescape rest')
            else if Nat.eqb n 98 then option_map (String (chr 8)) (json_unescape rest')
            else if Nat.eqb n 102 then option_map (String (chr 12)) (json_unescape rest')
            else if Nat.eqb n 117 then
              match rest' with
              | String h1 (String h2 (String h3 (String h4 rest''))) =>
                  match hex_val h1, hex_val h2, hex_val h3, hex_val h4 with
                  | Some a, Some b, Some c', Some d =>
                      let code := a * 4096 + b * 256 + c' * 16 + d in
                      if Nat.ltb code 256
                      then option_map (String (chr code)) (json_unescape rest'')
                      else None
                  | _, _, _, _ => None
                  end
              | _ => None
              end
            else None
        end
      else option_map (String c) (json_unescape rest)
  end.

(* ------------------------------------------------------------------ *)
(** ** Invariant of the application state *)

(** Every dynamic route of the table belongs to a frame that has already
    been opened and whose [endpoint] cell is bound. *)
Definition well_formed (st : AppState) : Prop :=
  forall r f, In r (routes st) -> route_endpoint r = DynamicRoute f ->
  f < next_frame st /\ exists e, cells st !! f = Some e.

(** The application after a sequence of [_activate_routes] calls whose
    queries return [dbs] in turn. *)
Fixpoint activate_all (dbs : list (Result (list Endpoint))) (st : AppState) : AppState :=
  match dbs with
  | [] => st
  | db :: rest => activate_all rest (fst (_activate_routes db st))
  end.

(* ------------------------------------------------------------------ *)
(** ** Lemmas on the loop *)

Lemma make_endpoint_name_ok id name :
  make_endpoint_name id = Ok name -> name = route_namespace ++ id.
Proof. destruct id; simpl; congruence. Qed.

Lemma add_route_cells st p h ms n :
  cells (fst (add_route st p h ms n)) = cells st.
Proof. unfold add_route. destruct (String.prefix "/" p); [destruct (compile_path p)|]; reflexivity. Qed.

Lemma add_route_next_frame st p h ms n :
  next_frame (fst (add_route st p h ms n)) = next_frame st.
Proof. unfold add_route. destruct (String.prefix "/" p); [destruct (compile_path p)|]; reflexivity. Qed.

Ltac step_loop e :=
  unfold registrable; destruct (make_endpoint_name (get_id e)) as [name|err] eqn:Hname;
  [unfold add_route; destruct (String.prefix "/" (get_path e)) eqn:Hpath;
   [destruct (compile_path (get_path e)) as [toks|err] eqn:Hcomp|]; simpl | simpl].

Lemma loop_next_frame f endpoints st :
  next_frame (fst (activate_loop f endpoints st)) = next_frame st.
Proof.
  revert st; induction endpoints as [|e rest IH]; intros st; simpl; [done|].
  step_loop e; try rewrite IH; reflexivity.
Qed.

Lemma loop_cells_other f g endpoints st :
  g <> f -> cells (fst (activate_loop f endpoints st)) !! g = cells st !! g.
Proof.
  intros Hg. revert st; induction endpoints as [|e rest IH]; intros st; simpl; [done|].
  step_loop e; try rewrite IH; simpl; by rewrite lookup_insert_ne.
Qed.

Lemma loop_routes f endpoints st :
  routes (fst (activate_loop f endpoints st)) =
  app (routes st) (map (route_for f) (firstn (registrable_prefix endpoints) endpoints)).
Proof.
  revert st; induction endpoints as [|e rest IH]; intros st; simpl.
  - by rewrite app_nil_r.
  - step_loop e.
    + rewrite IH; simpl. rewrite <- app_assoc.
      apply make_endpoint_name_ok in Hname. subst name.
      unfold route_for, path_regex. rewrite Hcomp. reflexivity.
    + by rewrite app_nil_r.
    + by rewrite app_nil_r.
    + by rewrite app_nil_r.
Qed.

Lemma loop_result f endpoints st :
  snd (activate_loop f endpoints st) = Ok tt <-> forallb registrable endpoints = true.
Proof.
  revert st; induction endpoints as [|e rest IH]; intros st; simpl; [done|].
  step_loop e; first [apply IH | split; discriminate].
Qed.

Lemma registrable_prefix_full endpoints :
  forallb registrable endpoints = true -> registrable_prefix endpoints = length endpoints.
Proof.
  induction endpoints as [|e rest IH]; simpl; [done|].
  destruct (registrable e); simpl; [intros H; f_equal; auto | discriminate].
Qed.

Lemma registrable_prefix_le endpoints : registrable_prefix endpoints <= length endpoints.
Proof.
  induction endpoints as [|e rest IH]; simpl; [lia|]. destruct (registrable e); lia.
Qed.

Lemma last_cons_default {A} (x : A) (l : list A) (d d' : A) :
  List.last (x :: l) d = List.last (x :: l) d'.
Proof.
  revert x; induction l as [|y l IH]; intros x; [done|].
  change (List.last (y :: l) d = List.last (y :: l) d'). apply IH.
Qed.

Lemma loop_step_ok f e rest st :
  registrable e = true ->
  activate_loop f (e :: rest) st =
  activate_loop f rest (fst (add_route (set_endpoint st f e) (get_path e)
                          (DynamicRoute f) [get_verb e] (route_namespace ++ get_id e))).
Proof.
  unfold registrable. intros H. simpl.
  destruct (make_endpoint_name (get_id e)) as [name|err] eqn:Hname; [|discriminate].
  apply make_endpoint_name_ok in Hname. subst name.
  apply andb_prop in H as [Hp Hc].
  unfold add_route. rewrite Hp. destruct (compile_path (get_path e)); [reflexivity | discriminate].
Qed.

Lemma loop_step_err f e rest st :
  registrable e = false ->
  exists err, activate_loop f (e :: rest) st = (set_endpoint st f e, Err err).
Proof.
  unfold registrable. intros H. simpl.
  destruct (make_endpoint_name (get_id e)) as [name|err] eqn:Hname; [|eauto].
  unfold add_route. destruct (String.prefix "/" (get_path e)); [|eauto].
  destruct (compile_path (get_path e)); [discriminate | eauto].
Qed.

(** After a successful loop the cell of [endpoint] holds the last record. *)
Lemma loop_cell_last f e rest st :
  snd (activate_loop f (e :: rest) st) = Ok tt ->
  cells (fst (activate_loop f (e :: rest) st)) !! f = Some (List.last (e :: rest) e).
Proof.
  revert e st; induction rest as [|e' rest IH]; intros e st H;
    destruct (registrable e) eqn:He.
  2, 4: match type of H with
        | context [activate_loop ?g ?l ?st0] =>
            destruct (loop_step_err g e (tail l) st0 He) as [err Herr];
            simpl tail in Herr; rewrite Herr in H; discriminate
        end.
  - rewrite loop_step_ok by exact He. simpl. rewrite add_route_cells.
    simpl. apply lookup_insert_eq.
  - rewrite loop_step_ok in H |- * by exact He.
    change (List.last (e :: e' :: rest) e) with (List.last (e' :: rest) e).
    rewrite (last_cons_default e' rest e e'). apply IH. exact H.
Qed.

(** Every loop that ran at least one iteration left some record of the batch
    in the cell of [endpoint]. *)
Lemma loop_cell_member f e rest st :
  exists e0, In e0 (e :: rest) /\
             cells (fst (activate_loop f (e :: rest) st)) !! f = Some e0.
Proof.
  revert e st; induction rest as [|e' rest IH]; intros e st;
    destruct (registrable e) eqn:He.
  - rewrite loop_step_ok by exact He. simpl. rewrite add_route_cells.
    exists e. split; [left; done | apply lookup_insert_eq].
  - destruct (loop_step_err f e [] st He) as [err ->].
    exists e. split; [left; done | apply lookup_insert_eq].
  - rewrite loop_step_ok by exact He.
    destruct (IH e' (fst (add_route (set_endpoint st f e) (get_path e) (DynamicRoute f)
                     [get_verb e] (route_namespace ++ get_id e)))) as [e0 [Hin Hc]].
    exists e0. split; [right; exact Hin | exact Hc].
  - destruct (loop_step_err f e (e' :: rest) st He) as [err ->].
    exists e. split; [left; done | apply lookup_insert_eq].
Qed.

Lemma in_firstn_in {A} (n : nat) (l : list A) (x : A) : In x (firstn n l) -> In x l.
Proof.
  revert n; induction l as [|y l IH]; intros [|n]; simpl; try tauto.
  intros [H|H]; [left; done | right; eapply IH; eauto].
Qed.

Lemma skipn_length_app {A} (l m : list A) : skipn (length l) (app l m) = m.
Proof. induction l as [|y l IH]; simpl; auto. Qed.

Lemma activate_routes_ok endpoints st :
  _activate_routes (Ok endpoints) st =
  activate_loop (next_frame st) endpoints
    {| routes := routes st; cells := cells st; next_frame := S (next_frame st) |}.
Proof. reflexivity. Qed.

Lemma activate_routes_routes endpoints st :
  routes (fst (_activate_routes (Ok endpoints) st)) =
  app (routes st) (map (route_for (next_frame st))
                     (firstn (registrable_prefix endpoints) endpoints)).
Proof. rewrite activate_routes_ok, loop_routes. reflexivity. Qed.

(** The routes one activation appends are [route_for f e] for records [e] of
    the batch, and their handlers find in their cell a record of the batch. *)
Lemma added_route_shape endpoints st r :
  let st' := fst (_activate_routes (Ok endpoints) st) in
  In r (added_routes st st') ->
  route_endpoint r = DynamicRoute (next_frame st) /\
  exists e0, In e0 endpoints /\ cells st' !! next_frame st = Some e0.
Proof.
  cbv zeta. unfold added_routes. rewrite activate_routes_routes, skipn_length_app.
  intros Hr. apply in_map_iff in Hr as [e [<- He]].
  apply in_firstn_in in He.
  split; [reflexivity|].
  destruct endpoints as [|e1 rest]; [destruct He|].
  rewrite activate_routes_ok. apply loop_cell_member.
Qed.

Lemma app_cancel_l (p a b : string) : p ++ a = p ++ b -> a = b.
Proof. induction p as [|c p IH]; simpl; [done|]. intros H. injection H. exact IH. Qed.

Lemma make_endpoint_name_inj a b :
  make_endpoint_name a = make_endpoint_name b -> a = b.
Proof.
  destruct a as [|ca a], b as [|cb b]; simpl; try congruence.
  intros H. assert (Hs : route_namespace ++ String ca a = route_namespace ++ String cb b)
    by congruence.
  exact (app_cancel_l _ _ _ Hs).
Qed.

(* ------------------------------------------------------------------ *)
(** ** Claims *)

(** C1 (closure capture).  After activating the batch [R1; R2] (ids a and b,
    201/"A" and 404/"B", distinct (path, verb) pairs), the request routed to
    R1's handler is answered with R2's response 404/"B", not with 201/"A":
    both handlers read the shared loop variable [endpoint]. *)
Theorem C1_first_handler_serves_second_record :
  let st := fst (_activate_routes (Ok [R1; R2]) empty_app) in
  dispatch st (request "GET" "/r1") = Served (Ok (json_response (Some "B") None 404)) /\
  dispatch st (request "GET" "/r1") <> Served (Ok (json_response (Some "A") None 201)) /\
  dispatch st (request "POST" "/r2") = Served (Ok (json_response (Some "B") None 404)).
Proof. vm_compute. split; [reflexivity | split; [discriminate | reflexivity]]. Qed.

(** C2, counterexample.  For the single record GET /ping -> 200 "pong", the
    handler does not return the stored body and headers unmodified: the body
    is the JSON text ["pong"] (with quotes) and content-length and
    content-type headers are added although the record has no headers. *)
Lemma C2_counterexample :
  let st := fst (_activate_routes (Ok [ping]) empty_app) in
  exists resp, dispatch st (request "GET" "/ping") = Served (Ok resp) /\
    Some (body resp) <> get_body ping /\ raw_headers resp <> [].
Proof.
  eexists. split; [vm_compute; reflexivity|]. split; vm_compute; discriminate.
Qed.

(** C2, amended.  Every handler registered by one activation ignores the
    request: all requests get the same response.  For a batch of one record
    [e] that response is [JSONResponse(content=e.get_body,
    headers=e.get_headers, status_code=e.get_code)]. *)
Theorem C2_handler_ignores_request (endpoints : list Endpoint) (st : AppState) (r : Route) :
  let st' := fst (_activate_routes (Ok endpoints) st) in
  In r (added_routes st st') ->
  (forall req1 req2 : Request,
     invoke st' (route_endpoint r) req1 = invoke st' (route_endpoint r) req2) /\
  (forall e : Endpoint, endpoints = [e] -> forall req : Request,
     invoke st' (route_endpoint r) req =
     Served (Ok (json_response (get_body e) (get_headers e) (get_code e)))).
Proof.
  intros st' Hr. destruct (added_route_shape endpoints st r Hr) as [Hh [e0 [Hin Hc]]].
  fold st' in Hc. rewrite Hh. split.
  - intros req1 req2. reflexivity.
  - intros e -> req. destruct Hin as [<-|[]]. simpl. unfold dynamic_route.
    rewrite Hc. reflexivity.
Qed.

Lemma C2_witness :
  In (route_for 0 ping) (added_routes empty_app (fst (_activate_routes (Ok [ping]) empty_app))) /\
  invoke (fst (_activate_routes (Ok [ping]) empty_app)) (DynamicRoute 0) (request "GET" "/x") =
  Served (Ok (json_response (get_body ping) (get_headers ping) (get_code ping))).
Proof.
  assert (Hin : In (route_for 0 ping)
                  (added_routes empty_app (fst (_activate_routes (Ok [ping]) empty_app))))
    by (vm_compute; left; reflexivity).
  split; [exact Hin|].
  exact (proj2 (C2_handler_ignores_request [ping] empty_app (route_for 0 ping) Hin)
           ping eq_refl (request "GET" "/x")).
Defined.

(** C3, counterexample.  Two records with the same id (hence the same route
    name) and the same (path, verb) pair: the activation reports no failure
    and both routes are appended to the table. *)
Lemma C3_counterexample :
  let e1 := mkEndpoint "x" GET "/dup" 200 None None in
  let e2 := mkEndpoint "x" GET "/dup" 201 None None in
  let res := _activate_routes (Ok [e1; e2]) empty_app in
  snd res = Ok tt /\ routes (fst res) = [route_for 0 e1; route_for 0 e2].
Proof. vm_compute. split; reflexivity. Qed.

(** C3, amended.  [_activate_routes] detects no conflicts and returns no
    summary: for every batch it appends [route_for f e] for each record in
    order, whatever names or (path, verb) pairs the table already holds,
    until a record raises: an empty id rejected by [make_endpoint_name]
    ([InvalidArgument]), a path not starting with '/' or naming an unknown
    convertor ([AssertionError] of [Route]), or a path repeating a parameter
    name ([ValueError] of [compile_path]).  That exception ends the batch with
    the routes appended so far kept.  It completes iff no record raises
    ([registrable]), a property of each record alone. *)
Theorem C3_no_conflict_detection (endpoints : list Endpoint) (st : AppState) :
  let res := _activate_routes (Ok endpoints) st in
  routes (fst res) =
    app (routes st) (map (route_for (next_frame st))
                       (firstn (registrable_prefix endpoints) endpoints)) /\
  (snd res = Ok tt <-> forallb registrable endpoints = true).
Proof.
  cbv zeta. split; [apply activate_routes_routes|].
  rewrite activate_routes_ok. apply loop_result.
Qed.

(** C4.  When the query of the endpoint table raises [StorageUnavailable],
    the exception leaves [_activate_routes] unchanged and neither the routing
    table nor any closure cell has been touched. *)
Theorem C4_storage_failure_registers_nothing (st : AppState) :
  let res := _activate_routes (Err StorageUnavailable) st in
  snd res = Err StorageUnavailable /\ routes (fst res) = routes st /\
  cells (fst res) = cells st.
Proof. repeat split. Qed.

Lemma forallb_registrable endpoints :
  Forall (fun e => exists name, make_endpoint_name (get_id e) = Ok name) endpoints ->
  Forall (fun e => String.prefix "/" (get_path e) = true) endpoints ->
  Forall (fun e => exists toks, compile_path (get_path e) = Ok toks) endpoints ->
  forallb registrable endpoints = true.
Proof.
  induction endpoints as [|e rest IH]; simpl; [done|].
  intros Hn Hp Hc. inversion Hn as [|? ? [name Hname] Hn']; subst.
  inversion Hp as [|? ? He Hp']; subst.
  inversion Hc as [|? ? [toks Htoks] Hc']; subst.
  unfold registrable. rewrite Hname, He, Htoks. simpl. auto.
Qed.

Ltac nodup_concrete :=
  simpl; repeat (apply List.NoDup_cons; [simpl; intros Hin;
                                    repeat destruct Hin as [Hin|Hin]; try (vm_compute in Hin; discriminate Hin);
                                    contradiction|]);
  apply List.NoDup_nil.

(** C5, counterexample.  The batch [R1; R3] has two accepted, distinct
    route names, distinct (path, verb) pairs and paths starting with '/', yet
    the activation raises [AssertionError] (R3's path names the unknown
    convertor [bogus]) after appending one route only. *)
Lemma C5_counterexample :
  let endpoints := [R1; R3] in
  Forall (fun e => exists name, make_endpoint_name (get_id e) = Ok name) endpoints /\
  Forall (fun e => String.prefix "/" (get_path e) = true) endpoints /\
  List.NoDup (map (fun e => make_endpoint_name (get_id e)) endpoints) /\
  List.NoDup (map (fun e => (get_path e, get_verb e)) endpoints) /\
  (let res := _activate_routes (Ok endpoints) empty_app in
   snd res = Err AssertionError /\ length (added_routes empty_app (fst res)) = 1).
Proof.
  cbv zeta.
  split; [repeat constructor; eexists; reflexivity|].
  split; [repeat constructor|].
  split; [nodup_concrete|]. split; [nodup_concrete|].
  vm_compute. split; reflexivity.
Qed.

(** C5, amended.  A batch of N records each of which has an accepted id
    and a path that starts with '/' and compiles (every convertor known, no
    parameter name repeated): the activation completes without exception
    and appends exactly N routes, one per record, in order, whether or not
    route names or (path, verb) pairs repeat. *)
Theorem C5_valid_batch_registers_all (endpoints : list Endpoint) (st : AppState)
  (Hnames : Forall (fun e => exists name, make_endpoint_name (get_id e) = Ok name) endpoints)
  (Hpaths : Forall (fun e => String.prefix "/" (get_path e) = true) endpoints)
  (Hcompile : Forall (fun e => exists toks, compile_path (get_path e) = Ok toks) endpoints) :
  let res := _activate_routes (Ok endpoints) st in
  snd res = Ok tt /\
  length (added_routes st (fst res)) = length endpoints /\
  routes (fst res) = app (routes st) (map (route_for (next_frame st)) endpoints).
Proof.
  cbv zeta. pose proof (forallb_registrable endpoints Hnames Hpaths Hcompile) as Hall.
  assert (Hr : routes (fst (_activate_routes (Ok endpoints) st)) =
               app (routes st) (map (route_for (next_frame st)) endpoints)).
  { rewrite activate_routes_routes, registrable_prefix_full, firstn_all by exact Hall.
    reflexivity. }
  split; [rewrite activate_routes_ok; apply loop_result; exact Hall|].
  split; [|exact Hr].
  unfold added_routes. rewrite Hr, skipn_length_app. apply length_map.
Qed.

Lemma C5_witness :
  let endpoints := [R1; U; R1] in
  Forall (fun e => exists name, make_endpoint_name (get_id e) = Ok name) endpoints /\
  Forall (fun e => String.prefix "/" (get_path e) = true) endpoints /\
  Forall (fun e => exists toks, compile_path (get_path e) = Ok toks) endpoints /\
  (let res := _activate_routes (Ok endpoints) empty_app in
   snd res = Ok tt /\
   length (added_routes empty_app (fst res)) = length endpoints /\
   routes (fst res) = app (routes empty_app) (map (route_for (next_frame empty_app)) endpoints)).
Proof.
  cbv zeta.
  assert (H1 : Forall (fun e => exists name, make_endpoint_name (get_id e) = Ok name) [R1; U; R1])
    by (repeat constructor; eexists; reflexivity).
  assert (H2 : Forall (fun e => String.prefix "/" (get_path e) = true) [R1; U; R1])
    by (repeat constructor).
  assert (H3 : Forall (fun e => exists toks, compile_path (get_path e) = Ok toks) [R1; U; R1])
    by (repeat constructor; eexists; vm_compute; reflexivity).
  split; [exact H1|]. split; [exact H2|]. split; [exact H3|].
  exact (C5_valid_batch_registers_all [R1; U; R1] empty_app H1 H2 H3).
Defined.

(** C6.  [make_endpoint_name] is a function of the id alone, and it maps a
    list of pairwise distinct ids to pairwise distinct results. *)
Theorem C6_route_names_pairwise_distinct (ids : list string) (Hids : List.NoDup ids) :
  List.NoDup (map make_endpoint_name ids).
Proof.
  induction Hids as [|id ids Hnotin Hids IH]; simpl; constructor; [|exact IH].
  intros Hin. apply in_map_iff in Hin as [id' [Heq Hin']].
  apply make_endpoint_name_inj in Heq. subst id'. contradiction.
Qed.

Lemma C6_witness :
  List.NoDup ["a"; "b"; ""] /\ List.NoDup (map make_endpoint_name ["a"; "b"; ""]).
Proof.
  assert (H : List.NoDup ["a"; "b"; ""]) by nodup_concrete.
  split; [exact H | exact (C6_route_names_pairwise_distinct _ H)].
Defined.

(** C7, counterexample.  Activating [R1] a second time against the table the
    first activation produced raises nothing: the second call completes and
    appends R1's route again. *)
Lemma C7_counterexample :
  let st1 := fst (_activate_routes (Ok [R1]) empty_app) in
  let res2 := _activate_routes (Ok [R1]) st1 in
  snd res2 = Ok tt /\ routes (fst res2) = [route_for 0 R1; route_for 1 R1].
Proof. vm_compute. split; reflexivity. Qed.

(** C7, amended.  When a batch activates without exception, activating the
    same batch again on the resulting application also completes without
    exception and reports nothing; it appends every record's route a second
    time, after the first ones. *)
Theorem C7_second_activation_appends_again (endpoints : list Endpoint) (st : AppState)
  (Hok : snd (_activate_routes (Ok endpoints) st) = Ok tt) :
  let st1 := fst (_activate_routes (Ok endpoints) st) in
  let res2 := _activate_routes (Ok endpoints) st1 in
  snd res2 = Ok tt /\
  routes (fst res2) =
    app (routes st) (app (map (route_for (next_frame st)) endpoints)
                         (map (route_for (S (next_frame st))) endpoints)).
Proof.
  cbv zeta. assert (Hall : forallb registrable endpoints = true)
    by (rewrite activate_routes_ok, loop_result in Hok; exact Hok).
  split; [rewrite activate_routes_ok; apply loop_result; exact Hall|].
  rewrite activate_routes_routes, registrable_prefix_full, firstn_all by exact Hall.
  rewrite activate_routes_routes, registrable_prefix_full, firstn_all by exact Hall.
  rewrite activate_routes_ok, loop_next_frame. simpl. by rewrite app_assoc.
Qed.

Lemma C7_witness :
  snd (_activate_routes (Ok [R1; R2]) empty_app) = Ok tt /\
  (let st1 := fst (_activate_routes (Ok [R1; R2]) empty_app) in
   let res2 := _activate_routes (Ok [R1; R2]) st1 in
   snd res2 = Ok tt /\
   routes (fst res2) =
     app (routes empty_app) (app (map (route_for (next_frame empty_app)) [R1; R2])
                                 (map (route_for (S (next_frame empty_app))) [R1; R2]))).
Proof.
  assert (H : snd (_activate_routes (Ok [R1; R2]) empty_app) = Ok tt) by (vm_compute; reflexivity).
  split; [exact H | exact (C7_second_activation_appends_again [R1; R2] empty_app H)].
Defined.

(** C8.  For a non-empty batch that activates without exception, one route
    is appended per record, and the handler of every one of them answers
    every request with the response fields (body, headers, status code) of
    the last record of the batch, read from the shared loop variable. *)
Theorem C8_all_handlers_serve_last_record (e : Endpoint) (rest : list Endpoint) (st : AppState)
  (Hok : snd (_activate_routes (Ok (e :: rest)) st) = Ok tt) :
  let st' := fst (_activate_routes (Ok (e :: rest)) st) in
  let l := List.last (e :: rest) e in
  length (added_routes st st') = length (e :: rest) /\
  forall (r : Route) (req : Request), In r (added_routes st st') ->
    invoke st' (route_endpoint r) req =
    Served (Ok (json_response (get_body l) (get_headers l) (get_code l))).
Proof.
  cbv zeta. pose proof Hok as Hall. rewrite activate_routes_ok, loop_result in Hall.
  split.
  - unfold added_routes.
    rewrite activate_routes_routes, registrable_prefix_full, firstn_all by exact Hall.
    rewrite skipn_length_app. apply length_map.
  - intros r req Hr. destruct (added_route_shape _ st r Hr) as [-> _].
    rewrite activate_routes_ok in Hok |- *. unfold invoke, dynamic_route.
    rewrite (loop_cell_last _ e rest _ Hok). reflexivity.
Qed.

Lemma C8_witness :
  snd (_activate_routes (Ok [R1; R2]) empty_app) = Ok tt /\
  (let st' := fst (_activate_routes (Ok [R1; R2]) empty_app) in
   let l := List.last [R1; R2] R1 in
   length (added_routes empty_app st') = length [R1; R2] /\
   forall (r : Route) (req : Request), In r (added_routes empty_app st') ->
     invoke st' (route_endpoint r) req =
     Served (Ok (json_response (get_body l) (get_headers l) (get_code l)))).
Proof.
  assert (H : snd (_activate_routes (Ok [R1; R2]) empty_app) = Ok tt) by (vm_compute; reflexivity).
  split; [exact H | exact (C8_all_handlers_serve_last_record R1 [R2] empty_app H)].
Defined.

(** C9.  Every handler an activation registers answers with a body that is
    the JSON serialisation ([render]) of the stored body of a record of the
    batch; in particular GET /ping of the record storing "pong" is answered
    with the JSON string literal, quotes included. *)
Theorem C9_body_is_json_encoded (endpoints : list Endpoint) (st : AppState)
  (r : Route) (req : Request)
  (Hr : In r (added_routes st (fst (_activate_routes (Ok endpoints) st)))) :
  (exists e resp, In e endpoints /\
     invoke (fst (_activate_routes (Ok endpoints) st)) (route_endpoint r) req =
       Served (Ok resp) /\
     body resp = render (get_body e)) /\
  dispatch (fst (_activate_routes (Ok [ping]) empty_app)) (request "GET" "/ping") =
    Served (Ok {| status_code := 200;
                  raw_headers := [("content-length", "6");
                                  ("content-type", "application/json")];
                  body := String (chr 34) ("pong" ++ str1 (chr 34)) |}).
Proof.
  split; [|vm_compute; reflexivity].
  destruct (added_route_shape endpoints st r Hr) as [Hh [e0 [Hin Hc]]].
  exists e0, (json_response (get_body e0) (get_headers e0) (get_code e0)).
  split; [exact Hin|]. rewrite Hh. unfold invoke, dynamic_route. rewrite Hc.
  split; reflexivity.
Qed.

Lemma C9_witness :
  In (route_for 0 ping) (added_routes empty_app (fst (_activate_routes (Ok [ping]) empty_app))) /\
  exists e resp, In e [ping] /\
    invoke (fst (_activate_routes (Ok [ping]) empty_app)) (DynamicRoute 0) (request "GET" "/") =
      Served (Ok resp) /\
    body resp = render (get_body e).
Proof.
  assert (Hin : In (route_for 0 ping)
                  (added_routes empty_app (fst (_activate_routes (Ok [ping]) empty_app))))
    by (vm_compute; left; reflexivity).
  split; [exact Hin|].
  exact (proj1 (C9_body_is_json_encoded [ping] empty_app (route_for 0 ping) (request "GET" "/") Hin)).
Defined.

(** C10.  Whatever the query returns, an activation only appends to the
    routing table (the routes present before are kept as a prefix), leaves
    the closure cells of every earlier frame as they were (so earlier
    handlers keep their behaviour), and an empty batch leaves the table
    unchanged. *)
Theorem C10_append_only (db : Result (list Endpoint)) (st : AppState) :
  let st' := fst (_activate_routes db st) in
  (exists added, routes st' = app (routes st) added) /\
  (forall g, g <> next_frame st -> cells st' !! g = cells st !! g) /\
  routes (fst (_activate_routes (Ok []) st)) = routes st.
Proof.
  cbv zeta. split; [|split].
  - destruct db as [endpoints|err].
    + rewrite activate_routes_routes. eexists. reflexivity.
    + exists []. simpl. by rewrite app_nil_r.
  - intros g Hg. destruct db as [endpoints|err]; [|reflexivity].
    rewrite activate_routes_ok, loop_cells_other by exact Hg. reflexivity.
  - reflexivity.
Qed.

(* ------------------------------------------------------------------ *)
(** ** Further properties of the code *)

Lemma json_unescape_escape_char (c : ascii) (t : string) :
  json_unescape (json_escape_char c ++ t) = option_map (String c) (json_unescape t).
Proof. destruct c as [[] [] [] [] [] [] [] []]; reflexivity. Qed.

(** The body [json.dumps] writes for a string reads back as that string. *)
Theorem json_escape_roundtrip (s : string) : json_unescape (json_escape s) = Some s.
Proof.
  induction s as [|c s IH]; [reflexivity|].
  simpl. rewrite json_unescape_escape_char, IH. reflexivity.
Qed.

Lemma append_str1_inj (a b : string) (x : ascii) : a ++ str1 x = b ++ str1 x -> a = b.
Proof.
  revert b; induction a as [|ca a IH]; intros [|cb b]; simpl; intros H.
  - reflexivity.
  - injection H as -> H. destruct b; discriminate.
  - injection H as -> H. destruct a; discriminate.
  - injection H as -> H. f_equal. apply IH, H.
Qed.

(** Distinct stored bodies (a missing body included) are served with
    distinct response bodies. *)
Theorem render_injective (c1 c2 : option string) : render c1 = render c2 -> c1 = c2.
Proof.
  destruct c1 as [s1|], c2 as [s2|]; simpl; intros H; try discriminate; [|reflexivity].
  injection H as H. apply append_str1_inj in H.
  f_equal. pose proof (json_escape_roundtrip s1) as H1.
  rewrite H, json_escape_roundtrip in H1. congruence.
Qed.

Lemma render_injective_witness :
  render (Some "a") = render (Some "a") /\ Some "a" = Some "a".
Proof. split; [reflexivity | apply render_injective; reflexivity]. Defined.

Lemma string_app_assoc (a b c : string) : (a ++ b) ++ c = a ++ (b ++ c).
Proof.
  induction a as [|x a IH]; [reflexivity|].
  change (String x ((a ++ b) ++ c) = String x (a ++ (b ++ c))). by rewrite IH.
Qed.

(** [_http_exception_handler] answers with the exception's status code, the
    body [{"errors":[{"code":<status>,"detail":<detail as JSON>}]}] and, for
    a media type not under [text/], the headers content-length (unless the
    status is below 200, 204 or 304) and content-type [MEDIA_TYPE]. *)
Theorem http_exception_response (MEDIA_TYPE : string) (req : Request) (exc : HTTPException)
  (Hmedia : String.prefix "text/" MEDIA_TYPE = false) :
  let resp := _http_exception_handler MEDIA_TYPE req exc in
  let b := "{" ++ json_quote "errors" ++ ":[{" ++ json_quote "code" ++ ":" ++
           str_of_Z (exc_status_code exc) ++ "," ++ json_quote "detail" ++ ":" ++
           json_dumps (exc_detail exc) ++ "}]}" in
  status_code resp = exc_status_code exc /\
  body resp = b /\
  raw_headers resp =
    app (if Z.ltb (exc_status_code exc) 200 || Z.eqb (exc_status_code exc) 204 ||
            Z.eqb (exc_status_code exc) 304
         then [] else [("content-length", str_of_nat (String.length b))])
        [("content-type", MEDIA_TYPE)].
Proof.
  assert (Hb : body (_http_exception_handler MEDIA_TYPE req exc) =
           "{" ++ json_quote "errors" ++ ":[{" ++ json_quote "code" ++ ":" ++
           str_of_Z (exc_status_code exc) ++ "," ++ json_quote "detail" ++ ":" ++
           json_dumps (exc_detail exc) ++ "}]}").
  { cbn [_http_exception_handler json_response_for body json_dumps].
    rewrite ?string_app_assoc. reflexivity. }
  cbv zeta. split; [reflexivity|]. split; [exact Hb|].
  rewrite <- Hb. unfold _http_exception_handler, json_response_for.
  cbn [raw_headers body init_headers_for]. rewrite Hmedia.
  destruct (_ || _); reflexivity.
Qed.

Lemma http_exception_response_witness :
  String.prefix "text/" "application/vnd.api+json" = false /\
  (let exc := mkHTTPException 404 (JStr "Not Found") None in
   let resp := _http_exception_handler "application/vnd.api+json" (request "GET" "/x") exc in
   let b := "{" ++ json_quote "errors" ++ ":[{" ++ json_quote "code" ++ ":" ++
            str_of_Z (exc_status_code exc) ++ "," ++ json_quote "detail" ++ ":" ++
            json_dumps (exc_detail exc) ++ "}]}" in
   status_code resp = exc_status_code exc /\
   body resp = b /\
   raw_headers resp =
     app (if Z.ltb (exc_status_code exc) 200 || Z.eqb (exc_status_code exc) 204 ||
             Z.eqb (exc_status_code exc) 304
          then [] else [("content-length", str_of_nat (String.length b))])
         [("content-type", "application/vnd.api+json")]).
Proof.
  assert (H : String.prefix "text/" "application/vnd.api+json" = false) by reflexivity.
  split; [exact H|].
  exact (http_exception_response "application/vnd.api+json" (request "GET" "/x")
           (mkHTTPException 404 (JStr "Not Found") None) H).
Defined.


Lemma existsb_eqb_in (k : string) (l : list string) :
  existsb (String.eqb k) l = true <-> In k l.
Proof.
  rewrite existsb_exists. split.
  - intros [x [Hx Heq]]. apply String.eqb_eq in Heq. subst x. exact Hx.
  - intros Hk. exists k. split; [exact Hk | apply String.eqb_refl].
Qed.

(** The headers of a produced response start with the record's stored
    headers (names lower-cased, values and order kept); what JSONResponse
    adds after them is a content-length or content-type header, and only
    when the stored headers do not already carry that name (in any case). *)
Theorem stored_headers_kept (content : option string) (hs : list (string * string)) (code : Z) :
  let stored := map (fun '(k, v) => (lower k, v)) hs in
  exists extra,
    raw_headers (json_response content (Some hs) code) = app stored extra /\
    forall k v, In (k, v) extra ->
      (k = "content-length" \/ k = "content-type") /\ ~ In k (map fst stored).
Proof.
  cbv zeta. unfold json_response, init_headers. cbn [raw_headers].
  set (stored := map (fun '(k, v) => (lower k, v)) hs).
  destruct (existsb (String.eqb "content-length") (map fst stored)) eqn:Hl;
  destruct (existsb (String.eqb "content-type") (map fst stored)) eqn:Ht;
  destruct (Z.ltb code 200 || Z.eqb code 204 || Z.eqb code 304); cbn [negb andb];
  first [ exists []; rewrite ?app_nil_r; split; [reflexivity | intros k v []]
        | eexists; rewrite <- ?app_assoc; split; [reflexivity|] ];
  intros k v Hkv; repeat destruct Hkv as [Hkv|Hkv]; try contradiction;
  injection Hkv as <- <-;
  (split; [ first [left; reflexivity | right; reflexivity] |
           rewrite <- existsb_eqb_in; first [rewrite Hl | rewrite Ht]; discriminate ]).
Qed.

(** For a status below 200, 204 or 304 and no stored headers, the response
    carries only the content-type header although its body is never empty
    (a missing body is sent as [null]). *)
Theorem no_content_length_for_bodiless_status (content : option string) (code : Z)
  (Hcode : (Z.ltb code 200 || Z.eqb code 204 || Z.eqb code 304) = true) :
  raw_headers (json_response content None code) = [("content-type", media_type)] /\
  body (json_response content None code) <> "".
Proof.
  unfold json_response, init_headers. cbn [raw_headers body]. rewrite Hcode.
  split; [reflexivity|]. destruct content; discriminate.
Qed.

Lemma no_content_length_for_bodiless_status_witness :
  (Z.ltb 204 200 || Z.eqb 204 204 || Z.eqb 204 304) = true /\
  raw_headers (json_response None None 204) = [("content-type", media_type)] /\
  body (json_response None None 204) <> "".
Proof.
  assert (H : (Z.ltb 204 200 || Z.eqb 204 204 || Z.eqb 204 304) = true) by reflexivity.
  split; [exact H | exact (no_content_length_for_bodiless_status None 204 H)].
Defined.

(* ------------------------------------------------------------------ *)
(** ** Routing lemmas *)

Lemma str_take_length_le (n : nat) (s : string) : String.length (str_take n s) <= String.length s.
Proof. revert s; induction n as [|n IH]; intros [|c s]; simpl; try lia. specialize (IH s). lia. Qed.

Lemma str_drop_length_le (n : nat) (s : string) : String.length (str_drop n s) <= String.length s.
Proof. revert s; induction n as [|n IH]; intros [|c s]; simpl; try lia. specialize (IH s). lia. Qed.

Lemma first_some_some {A : Type} (f : nat -> option A) (l : list nat) (a : A) :
  first_some f l = Some a -> exists k, f k = Some a.
Proof.
  induction l as [|k l IH]; simpl; [discriminate|].
  destruct (f k) eqn:E; [intros H; injection H as <-; eauto | exact IH].
Qed.

(** Every group of a match is a piece of the matched string. *)
Lemma regex_match_short (ts : list PathTok) (s : string) (caps : list (Convertor * string)) :
  regex_match ts s = Some caps ->
  Forall (fun cv => String.length (snd cv) <= String.length s) caps.
Proof.
  revert s caps; induction ts as [|t ts IH]; intros s caps H.
  - simpl in H. destruct (at_end s); [injection H as <-; constructor | discriminate].
  - destruct t as [l|name c]; simpl in H.
    + destruct (String.prefix l s); [|discriminate].
      apply IH in H. eapply Forall_impl; [exact H|]. intros [c v] Hv. simpl in *.
      pose proof (str_drop_length_le (String.length l) s). lia.
    + apply first_some_some in H as [k Hk].
      destruct (regex_match ts (str_drop k s)) as [caps'|] eqn:E; [|discriminate].
      simpl in Hk. injection Hk as <-. constructor.
      * apply str_take_length_le.
      * apply IH in E. eapply Forall_impl; [exact E|]. intros [c' v] Hv. simpl in *.
        pose proof (str_drop_length_le k s). lia.
Qed.

Lemma regex_match_convert_ok (ts : list PathTok) (s : string) (caps : list (Convertor * string)) :
  regex_match ts s = Some caps -> String.length s <= 4300 -> convert_ok caps = true.
Proof.
  intros H Hs. apply regex_match_short in H. unfold convert_ok.
  apply forallb_forall. intros [c v] Hin. rewrite List.Forall_forall in H.
  specialize (H _ Hin). simpl in H.
  destruct c; try reflexivity. apply Nat.leb_le. lia.
Qed.

Lemma route_matches_none (r : Route) (m p : string) :
  regex_match (route_regex r) p = None -> route_matches r m p = Ok Match.NONE.
Proof. intros H. unfold route_matches. rewrite H. reflexivity. Qed.

(** A request path of at most 4300 characters never makes [matches] raise. *)
Lemma route_matches_short (r : Route) (m p : string) :
  String.length p <= 4300 -> exists k, route_matches r m p = Ok k.
Proof.
  intros Hs. unfold route_matches.
  destruct (regex_match (route_regex r) p) as [caps|] eqn:E; [|eauto].
  rewrite (regex_match_convert_ok _ _ _ E Hs).
  destruct (route_methods r); [eauto|]. destruct (existsb _ _); eauto.
Qed.

Lemma route_matches_some (r : Route) (m p : string) (caps : list (Convertor * string)) :
  regex_match (route_regex r) p = Some caps -> String.length p <= 4300 ->
  exists k, route_matches r m p = Ok k /\ k <> Match.NONE.
Proof.
  intros E Hs. unfold route_matches. rewrite E, (regex_match_convert_ok _ _ _ E Hs).
  destruct (route_methods r); [eexists; split; [reflexivity | discriminate]|].
  destruct (existsb _ _); (eexists; split; [reflexivity | discriminate]).
Qed.

Lemma route_matches_full (r : Route) (m p : string) (caps : list (Convertor * string)) :
  regex_match (route_regex r) p = Some caps -> String.length p <= 4300 ->
  In m (route_methods r) -> route_matches r m p = Ok Match.FULL.
Proof.
  intros E Hs Hm. apply existsb_eqb_in in Hm.
  unfold route_matches. rewrite E, (regex_match_convert_ok _ _ _ E Hs).
  destruct (route_methods r) as [|m0 ms] eqn:Em; [reflexivity|].
  rewrite ?Em in Hm. rewrite Hm. reflexivity.
Qed.

Lemma route_matches_partial (r : Route) (m p : string) (caps : list (Convertor * string)) :
  regex_match (route_regex r) p = Some caps -> String.length p <= 4300 ->
  route_methods r <> [] -> ~ In m (route_methods r) -> route_matches r m p = Ok Match.PARTIAL.
Proof.
  intros E Hs Hne Hm.
  assert (Hb : existsb (String.eqb m) (route_methods r) = false).
  { destruct (existsb _ _) eqn:B; [|reflexivity]. apply existsb_eqb_in in B. contradiction. }
  unfold route_matches. rewrite E, (regex_match_convert_ok _ _ _ E Hs).
  destruct (route_methods r) as [|m0 ms] eqn:Em; [congruence|].
  rewrite ?Em in Hb. rewrite Hb. reflexivity.
Qed.

Lemma match_routes_skip (rs rs' : list Route) (req : Request) (p : option Route) :
  (forall r, In r rs -> route_matches r (req_method req) (req_path req) = Ok Match.NONE) ->
  match_routes (app rs rs') req p = match_routes rs' req p.
Proof.
  induction rs as [|r rs IH]; intros H; [reflexivity|]. simpl.
  rewrite (H r (or_introl eq_refl)). apply IH. intros r' Hr'. apply H. right. exact Hr'.
Qed.

Lemma match_routes_app_full (rs rs' : list Route) (req : Request) (p : option Route) (r : Route) :
  match_routes rs req p = Ok (ScanFull r) -> match_routes (app rs rs') req p = Ok (ScanFull r).
Proof.
  revert p; induction rs as [|r0 rs IH]; intros p.
  - simpl. destruct p; discriminate.
  - simpl. destruct (route_matches r0 _ _) as [[| |]|e]; auto.
Qed.

Lemma match_routes_full_in (rs : list Route) (req : Request) (p : option Route) (r : Route) :
  match_routes rs req p = Ok (ScanFull r) -> In r rs.
Proof.
  revert p; induction rs as [|r0 rs IH]; intros p.
  - simpl. destruct p; discriminate.
  - simpl. destruct (route_matches r0 _ _) as [[| |]|e].
    + intros H. right. eapply IH. exact H.
    + intros H. right. eapply IH. exact H.
    + intros H. injection H as <-. left. reflexivity.
    + discriminate.
Qed.

Lemma match_routes_exists (rs : list Route) (req : Request) (p : option Route) :
  (forall r, In r rs -> exists k, route_matches r (req_method req) (req_path req) = Ok k) ->
  (exists r, In r rs /\ route_matches r (req_method req) (req_path req) = Ok Match.FULL) ->
  exists r, match_routes rs req p = Ok (ScanFull r) /\ In r rs.
Proof.
  revert p; induction rs as [|r0 rs IH]; intros p Hok [r [Hin Hr]]; [destruct Hin|].
  simpl. destruct (Hok r0 (or_introl eq_refl)) as [k0 Hk0]. rewrite Hk0.
  destruct k0; [set (q := p) | set (q := match p with None => Some r0 | Some _ => p end) |
                 exists r0; split; [reflexivity | left; reflexivity]];
    (destruct Hin as [<-|Hin]; [congruence|];
     destruct (IH q (fun r' H' => Hok r' (or_intror H'))) as [r' [H1 H2]];
     [exists r; split; assumption|];
     exists r'; split; [exact H1 | right; exact H2]).
Qed.

Lemma match_routes_partial (rs : list Route) (req : Request) (p : option Route) :
  (forall r, In r rs -> route_matches r (req_method req) (req_path req) = Ok Match.NONE \/
                        route_matches r (req_method req) (req_path req) = Ok Match.PARTIAL) ->
  (p <> None \/
   exists r, In r rs /\ route_matches r (req_method req) (req_path req) = Ok Match.PARTIAL) ->
  exists r, match_routes rs req p = Ok (ScanPartial r).
Proof.
  revert p; induction rs as [|r0 rs IH]; intros p Hm Hex.
  - destruct p as [r|]; [exists r; reflexivity|].
    destruct Hex as [Hex|[r [[] _]]]. congruence.
  - simpl. destruct (Hm r0 (or_introl eq_refl)) as [H0|H0]; rewrite H0;
      apply IH; try (intros r Hr; apply Hm; right; exact Hr).
    + destruct Hex as [Hex|[r [[<-|Hr] Hpr]]]; [left; exact Hex | congruence | right; eauto].
    + left. destruct p; discriminate.
Qed.

Lemma match_routes_none (rs : list Route) (req : Request) :
  (forall r, In r rs -> route_matches r (req_method req) (req_path req) = Ok Match.NONE) ->
  match_routes rs req None = Ok ScanNone.
Proof. intros H. rewrite <- (app_nil_r rs), match_routes_skip by exact H. reflexivity. Qed.

Lemma redirect_scan_false (rs : list Route) (m p : string) :
  (forall r, In r rs -> route_matches r m p = Ok Match.NONE) -> redirect_scan rs m p = Ok false.
Proof.
  induction rs as [|r rs IH]; intros H; [reflexivity|]. simpl.
  rewrite (H r (or_introl eq_refl)). apply IH. intros r' Hr'. apply H. right. exact Hr'.
Qed.

Lemma redirect_scan_true (rs : list Route) (m p : string) :
  (forall r, In r rs -> exists k, route_matches r m p = Ok k) ->
  (exists r k, In r rs /\ route_matches r m p = Ok k /\ k <> Match.NONE) ->
  redirect_scan rs m p = Ok true.
Proof.
  induction rs as [|r0 rs IH]; intros Hok [r [k [Hin [Hr Hk]]]]; [destruct Hin|]. simpl.
  destruct (Hok r0 (or_introl eq_refl)) as [k0 Hk0]. rewrite Hk0.
  destruct k0; try reflexivity.
  destruct Hin as [<-|Hin]; [congruence|].
  apply IH; [intros r' H'; apply Hok; right; exact H' | exists r, k; auto].
Qed.

Lemma in_prefix_registrable (l : list Endpoint) (e : Endpoint) :
  In e (firstn (registrable_prefix l) l) -> registrable e = true.
Proof.
  induction l as [|x l IH]; simpl; [intros []|].
  destruct (registrable x) eqn:Hx; simpl; [|intros []].
  intros [<-|H]; [exact Hx | apply IH, H].
Qed.

Lemma registrable_compile (e : Endpoint) :
  registrable e = true -> compile_path (get_path e) = Ok (path_regex (get_path e)).
Proof.
  unfold registrable, path_regex. destruct (make_endpoint_name _); [|discriminate].
  destruct (String.prefix _ _); [|discriminate]. simpl.
  destruct (compile_path _); [reflexivity | discriminate].
Qed.

(** The routes one activation appends are compiled from the records' paths. *)
Lemma activated_route (endpoints : list Endpoint) (st : AppState) (r : Route) :
  In r (routes (fst (_activate_routes (Ok endpoints) st))) ->
  In r (routes st) \/
  exists e, In e endpoints /\ r = route_for (next_frame st) e /\
            compile_path (get_path e) = Ok (route_regex r).
Proof.
  rewrite activate_routes_routes. intros Hr. apply in_app_or in Hr as [Hr|Hr]; [left; exact Hr|].
  right. apply in_map_iff in Hr as [e [<- He]]. exists e.
  split; [eapply in_firstn_in; exact He|]. split; [reflexivity|].
  apply registrable_compile, (in_prefix_registrable _ _ He).
Qed.

Lemma activate_routes_err_state (err : exn) (st : AppState) :
  fst (_activate_routes (Err err) st) =
  {| routes := routes st; cells := cells st; next_frame := S (next_frame st) |}.
Proof. reflexivity. Qed.

Lemma activate_routes_next_frame (db : Result (list Endpoint)) (st : AppState) :
  next_frame (fst (_activate_routes db st)) = S (next_frame st).
Proof.
  destruct db as [endpoints|err]; [|reflexivity].
  rewrite activate_routes_ok, loop_next_frame. reflexivity.
Qed.

Lemma activate_routes_old_cells (db : Result (list Endpoint)) (st : AppState) (g : nat) :
  g <> next_frame st -> cells (fst (_activate_routes db st)) !! g = cells st !! g.
Proof.
  intros Hg. destruct db as [endpoints|err]; [|reflexivity].
  rewrite activate_routes_ok, loop_cells_other by exact Hg. reflexivity.
Qed.

Lemma activate_routes_prefix (db : Result (list Endpoint)) (st : AppState) :
  exists added, routes (fst (_activate_routes db st)) = app (routes st) added.
Proof.
  destruct db as [endpoints|err].
  - rewrite activate_routes_routes. eexists. reflexivity.
  - exists []. rewrite activate_routes_err_state. simpl. by rewrite app_nil_r.
Qed.

(* ------------------------------------------------------------------ *)
(** ** The application state across activations *)

Lemma well_formed_step (db : Result (list Endpoint)) (st : AppState) :
  well_formed st -> well_formed (fst (_activate_routes db st)).
Proof.
  intros Hwf r f Hin Hh. rewrite activate_routes_next_frame.
  destruct db as [endpoints|err].
  - pose proof Hin as Hin'. rewrite activate_routes_routes in Hin'.
    apply in_app_or in Hin' as [Hold|Hnew].
    + destruct (Hwf r f Hold Hh) as [Hlt He]. split; [lia|].
      rewrite activate_routes_old_cells by lia. exact He.
    + assert (Hadd : In r (added_routes st (fst (_activate_routes (Ok endpoints) st)))).
      { unfold added_routes. rewrite activate_routes_routes, skipn_length_app. exact Hnew. }
      destruct (added_route_shape _ _ _ Hadd) as [Hh' [e0 [_ Hc]]].
      rewrite Hh in Hh'. injection Hh' as ->. split; [lia | eauto].
  - rewrite activate_routes_err_state in Hin |- *. simpl in Hin.
    destruct (Hwf r f Hin Hh) as [Hlt He]. split; [simpl; lia | exact He].
Qed.

(** [_activate_routes] keeps the state well formed: every dynamic route of
    the table belongs to an opened frame whose [endpoint] cell is bound. *)
Theorem activate_preserves_well_formed (db : Result (list Endpoint)) (st : AppState)
  (Hwf : well_formed st) : well_formed (fst (_activate_routes db st)).
Proof. exact (well_formed_step db st Hwf). Qed.

Lemma well_formed_empty_app : well_formed empty_app.
Proof. intros r f []. Qed.

Lemma activate_preserves_well_formed_witness :
  well_formed empty_app /\ well_formed (fst (_activate_routes (Ok [ping]) empty_app)).
Proof.
  assert (H : well_formed empty_app) by (intros r f []).
  split; [exact H | exact (activate_preserves_well_formed (Ok [ping]) empty_app H)].
Defined.

Lemma well_formed_activate_all (dbs : list (Result (list Endpoint))) (st : AppState) :
  well_formed st -> well_formed (activate_all dbs st).
Proof.
  revert st; induction dbs as [|db dbs IH]; intros st Hwf; simpl; [exact Hwf|].
  apply IH, well_formed_step, Hwf.
Qed.

Lemma dispatch_well_formed (st : AppState) (req : Request) (err : exn) :
  well_formed st -> dispatch st req <> Served (Err err).
Proof.
  intros Hwf. unfold dispatch.
  destruct (match_routes (routes st) req None) as [[r|r|]|e] eqn:M; try discriminate.
  - apply match_routes_full_in in M.
    destruct (route_endpoint r) as [f|n] eqn:Hh; [|discriminate].
    destruct (Hwf r f M Hh) as [_ [e He]]. simpl. unfold dynamic_route. rewrite He. discriminate.
  - destruct (String.eqb _ _); [discriminate|].
    destruct (redirect_scan _ _ _) as [[|]|e']; discriminate.
Qed.

(** However many activations run from the empty application, whatever their
    queries return, no dispatched request ever fails because a handler's
    [endpoint] variable is unbound. *)
Theorem dispatch_never_name_error (dbs : list (Result (list Endpoint))) (req : Request)
  (err : exn) : dispatch (activate_all dbs empty_app) req <> Served (Err err).
Proof. apply dispatch_well_formed, well_formed_activate_all, well_formed_empty_app. Qed.

(** A further activation never changes the response of a request that the
    application already answers through a handler: earlier routes come
    first in the table and their frames' cells are left alone. *)
Theorem dispatch_stable_under_activation (db : Result (list Endpoint)) (st : AppState)
  (req : Request) (x : Result JSONResponse)
  (Hwf : well_formed st) (Hs : dispatch st req = Served x) :
  dispatch (fst (_activate_routes db st)) req = Served x.
Proof.
  unfold dispatch in *.
  destruct (match_routes (routes st) req None) as [[r|r|]|e] eqn:M.
  - destruct (activate_routes_prefix db st) as [added Hpre].
    rewrite Hpre, (match_routes_app_full _ _ _ _ _ M).
    destruct (route_endpoint r) as [f|n] eqn:Hh; [|discriminate].
    destruct (Hwf r f (match_routes_full_in _ _ _ _ M) Hh) as [Hlt _].
    simpl in *. unfold dynamic_route in *.
    rewrite activate_routes_old_cells by lia. exact Hs.
  - discriminate.
  - destruct (String.eqb _ _); [discriminate|].
    destruct (redirect_scan _ _ _) as [[|]|e']; discriminate.
  - discriminate.
Qed.

Lemma dispatch_stable_under_activation_witness :
  let st := fst (_activate_routes (Ok [ping]) empty_app) in
  well_formed st /\
  dispatch st (request "GET" "/ping") = Served (Ok (json_response (Some "pong") None 200)) /\
  dispatch (fst (_activate_routes (Ok [mkEndpoint "e2" GET "/ping" 500 None None]) st))
    (request "GET" "/ping") = Served (Ok (json_response (Some "pong") None 200)).
Proof.
  cbv zeta.
  assert (Hwf : well_formed (fst (_activate_routes (Ok [ping]) empty_app))).
  { intros r f Hin Hh. vm_compute in Hin. destruct Hin as [<-|[]].
    vm_compute in Hh. injection Hh as <-. split; [vm_compute; lia | eexists; reflexivity]. }
  assert (Hs : dispatch (fst (_activate_routes (Ok [ping]) empty_app)) (request "GET" "/ping")
               = Served (Ok (json_response (Some "pong") None 200))) by (vm_compute; reflexivity).
  split; [exact Hwf|]. split; [exact Hs|].
  exact (dispatch_stable_under_activation _ _ _ _ Hwf Hs).
Defined.

(* ------------------------------------------------------------------ *)
(** ** What a request reaches after one activation *)

(** After a batch activates without exception, take a record [e] of it and
    a request path [p] that [e]'s compiled path matches, that no earlier
    route's path matches, and that is at most 4300 characters long (so no
    [int] parameter can overflow).  A request for [p] with [e]'s verb (or
    HEAD when that verb is GET) is answered by a produced handler, with the
    response of the batch's last record. *)
Theorem record_method_served (e0 : Endpoint) (rest : list Endpoint) (st : AppState)
  (e : Endpoint) (toks : list PathTok) (m p : string)
  (Hin : In e (e0 :: rest))
  (Hok : snd (_activate_routes (Ok (e0 :: rest)) st) = Ok tt)
  (Hc : compile_path (get_path e) = Ok toks)
  (Hp : regex_match toks p <> None)
  (Hshort : String.length p <= 4300)
  (Hfresh : forall r, In r (routes st) -> regex_match (route_regex r) p = None)
  (Hm : In m (route_methods_of [get_verb e])) :
  let l := List.last (e0 :: rest) e0 in
  dispatch (fst (_activate_routes (Ok (e0 :: rest)) st)) (request m p) =
  Served (Ok (json_response (get_body l) (get_headers l) (get_code l))).
Proof.
  cbv zeta. pose proof Hok as Hall. rewrite activate_routes_ok, loop_result in Hall.
  unfold dispatch.
  rewrite activate_routes_routes, registrable_prefix_full, firstn_all by exact Hall.
  rewrite match_routes_skip by (intros r Hr; apply route_matches_none, Hfresh, Hr).
  destruct (match_routes_exists (map (route_for (next_frame st)) (e0 :: rest))
              (request m p) None) as [r [M Hr]].
  { intros r _. apply route_matches_short, Hshort. }
  { exists (route_for (next_frame st) e). split; [apply in_map; exact Hin|].
    destruct (regex_match toks p) as [caps|] eqn:E; [|congruence].
    apply (route_matches_full _ _ _ caps); [|exact Hshort | exact Hm].
    unfold route_for, path_regex. cbn [route_regex]. rewrite Hc. exact E. }
  rewrite M. apply in_map_iff in Hr as [e' [<- _]].
  unfold invoke, route_for, dynamic_route. cbn [route_endpoint].
  rewrite activate_routes_ok in Hok |- *. rewrite (loop_cell_last _ _ _ _ Hok). reflexivity.
Qed.

Lemma record_method_served_witness :
  In U [R1; U] /\ snd (_activate_routes (Ok [R1; U]) empty_app) = Ok tt /\
  compile_path (get_path U) = Ok [PLit "/u/"; PParam "x" StringConvertor; PLit ""] /\
  regex_match [PLit "/u/"; PParam "x" StringConvertor; PLit ""] "/u/abc" <> None /\
  String.length "/u/abc" <= 4300 /\
  (forall r, In r (routes empty_app) -> regex_match (route_regex r) "/u/abc" = None) /\
  In "HEAD" (route_methods_of [get_verb U]) /\
  dispatch (fst (_activate_routes (Ok [R1; U]) empty_app)) (request "HEAD" "/u/abc") =
  Served (Ok (json_response (get_body (List.last [R1; U] R1))
                (get_headers (List.last [R1; U] R1)) (get_code (List.last [R1; U] R1)))).
Proof.
  assert (H1 : In U [R1; U]) by (right; left; reflexivity).
  assert (H2 : snd (_activate_routes (Ok [R1; U]) empty_app) = Ok tt) by (vm_compute; reflexivity).
  assert (H3 : compile_path (get_path U) = Ok [PLit "/u/"; PParam "x" StringConvertor; PLit ""])
    by (vm_compute; reflexivity).
  assert (H4 : regex_match [PLit "/u/"; PParam "x" StringConvertor; PLit ""] "/u/abc" <> None)
    by (vm_compute; discriminate).
  assert (H5 : String.length "/u/abc" <= 4300) by (simpl; lia).
  assert (H6 : forall r, In r (routes empty_app) -> regex_match (route_regex r) "/u/abc" = None)
    by (intros r []).
  assert (H7 : In "HEAD" (route_methods_of [get_verb U])) by (simpl; right; left; reflexivity).
  do 7 (split; [assumption|]).
  exact (record_method_served R1 [U] empty_app U _ "HEAD" "/u/abc" H1 H2 H3 H4 H5 H6 H7).
Defined.

(** A request whose path, and the trailing-slash variant of that path that
    the router would redirect to, match neither an earlier route nor the
    compiled path of any record of the batch gets no route (404 from the
    router), whatever the batch and however far its activation got. *)
Theorem unknown_path_not_found (endpoints : list Endpoint) (st : AppState)
  (path m : string)
  (Hold : forall r, In r (routes st) ->
          regex_match (route_regex r) path = None /\
          regex_match (route_regex r) (redirect_path path) = None)
  (Hnew : forall e toks, In e endpoints -> compile_path (get_path e) = Ok toks ->
          regex_match toks path = None /\ regex_match toks (redirect_path path) = None) :
  dispatch (fst (_activate_routes (Ok endpoints) st)) (request m path) = NotFound.
Proof.
  assert (H : forall r, In r (routes (fst (_activate_routes (Ok endpoints) st))) ->
              regex_match (route_regex r) path = None /\
              regex_match (route_regex r) (redirect_path path) = None).
  { intros r Hr. apply activated_route in Hr as [Hr|[e [He [_ Hc]]]].
    - apply Hold, Hr.
    - exact (Hnew e _ He Hc). }
  unfold dispatch.
  rewrite match_routes_none by (intros r Hr; apply route_matches_none, (H r Hr)).
  cbn [req_path req_method request].
  destruct (String.eqb path "/"); [reflexivity|].
  rewrite redirect_scan_false by (intros r Hr; apply route_matches_none, (H r Hr)).
  reflexivity.
Qed.

Lemma unknown_path_not_found_witness :
  (forall r, In r (routes empty_app) ->
     regex_match (route_regex r) "/pong" = None /\
     regex_match (route_regex r) (redirect_path "/pong") = None) /\
  (forall e toks, In e [ping] -> compile_path (get_path e) = Ok toks ->
     regex_match toks "/pong" = None /\ regex_match toks (redirect_path "/pong") = None) /\
  dispatch (fst (_activate_routes (Ok [ping]) empty_app)) (request "GET" "/pong") = NotFound.
Proof.
  assert (H1 : forall r, In r (routes empty_app) ->
                 regex_match (route_regex r) "/pong" = None /\
                 regex_match (route_regex r) (redirect_path "/pong") = None) by (intros r []).
  assert (H2 : forall e toks, In e [ping] -> compile_path (get_path e) = Ok toks ->
                 regex_match toks "/pong" = None /\ regex_match toks (redirect_path "/pong") = None).
  { intros e toks [<-|[]] Hc. vm_compute in Hc. injection Hc as <-.
    split; vm_compute; reflexivity. }
  split; [exact H1|]. split; [exact H2|].
  exact (unknown_path_not_found [ping] empty_app "/pong" "GET" H1 H2).
Defined.

(** After a batch activates without exception, take a request path [p] of
    at most 4300 characters that the compiled path of some record of the
    batch matches and that no earlier route's path matches.  A request for
    [p] with a method that no record of the batch whose path matches [p]
    accepts is refused as "method not allowed" (405) instead of reaching a
    handler. *)
Theorem wrong_method_not_allowed (endpoints : list Endpoint) (st : AppState)
  (e : Endpoint) (toks : list PathTok) (m p : string)
  (Hok : snd (_activate_routes (Ok endpoints) st) = Ok tt)
  (Hin : In e endpoints)
  (Hc : compile_path (get_path e) = Ok toks)
  (Hp : regex_match toks p <> None)
  (Hshort : String.length p <= 4300)
  (Hfresh : forall r, In r (routes st) -> regex_match (route_regex r) p = None)
  (Hm : forall e' toks', In e' endpoints -> compile_path (get_path e') = Ok toks' ->
        regex_match toks' p <> None -> ~ In m (route_methods_of [get_verb e'])) :
  dispatch (fst (_activate_routes (Ok endpoints) st)) (request m p) = MethodNotAllowed.
Proof.
  pose proof Hok as Hall. rewrite activate_routes_ok, loop_result in Hall.
  unfold dispatch.
  rewrite activate_routes_routes, registrable_prefix_full, firstn_all by exact Hall.
  rewrite match_routes_skip by (intros r Hr; apply route_matches_none, Hfresh, Hr).
  destruct (match_routes_partial (map (route_for (next_frame st)) endpoints)
              (request m p) None) as [r M].
  - intros r Hr. apply in_map_iff in Hr as [e' [<- He']].
    pose proof (registrable_compile e' (proj1 (forallb_forall _ _) Hall e' He')) as Hc'.
    destruct (regex_match (path_regex (get_path e')) p) as [caps|] eqn:E.
    + right. apply (route_matches_partial _ _ _ caps); [exact E | exact Hshort | |].
      * unfold route_for, route_methods_of. cbn. discriminate.
      * apply (Hm e' _ He' Hc'). congruence.
    + left. apply route_matches_none. exact E.
  - right. exists (route_for (next_frame st) e). split; [apply in_map; exact Hin|].
    destruct (regex_match toks p) as [caps|] eqn:E; [|congruence].
    apply (route_matches_partial _ _ _ caps); [| exact Hshort | |].
    + unfold route_for, path_regex. cbn [route_regex]. rewrite Hc. exact E.
    + unfold route_for, route_methods_of. cbn. discriminate.
    + apply (Hm e toks Hin Hc). congruence.
  - rewrite M. reflexivity.
Qed.

Lemma wrong_method_not_allowed_witness :
  snd (_activate_routes (Ok [ping]) empty_app) = Ok tt /\ In ping [ping] /\
  compile_path (get_path ping) = Ok [PLit "/ping"] /\
  regex_match [PLit "/ping"] "/ping" <> None /\
  String.length "/ping" <= 4300 /\
  (forall r, In r (routes empty_app) -> regex_match (route_regex r) "/ping" = None) /\
  (forall e' toks', In e' [ping] -> compile_path (get_path e') = Ok toks' ->
     regex_match toks' "/ping" <> None -> ~ In "POST" (route_methods_of [get_verb e'])) /\
  dispatch (fst (_activate_routes (Ok [ping]) empty_app)) (request "POST" "/ping") =
  MethodNotAllowed.
Proof.
  assert (H1 : snd (_activate_routes (Ok [ping]) empty_app) = Ok tt) by (vm_compute; reflexivity).
  assert (H2 : In ping [ping]) by (left; reflexivity).
  assert (H3 : compile_path (get_path ping) = Ok [PLit "/ping"]) by (vm_compute; reflexivity).
  assert (H4 : regex_match [PLit "/ping"] "/ping" <> None) by (vm_compute; discriminate).
  assert (H5 : String.length "/ping" <= 4300) by (simpl; lia).
  assert (H6 : forall r, In r (routes empty_app) -> regex_match (route_regex r) "/ping" = None)
    by (intros r []).
  assert (H7 : forall e' toks', In e' [ping] -> compile_path (get_path e') = Ok toks' ->
                 regex_match toks' "/ping" <> None -> ~ In "POST" (route_methods_of [get_verb e'])).
  { intros e' toks' [<-|[]] _ _ Hin. simpl in Hin.
    destruct Hin as [H|[H|[]]]; discriminate. }
  do 7 (split; [assumption|]).
  exact (wrong_method_not_allowed [ping] empty_app ping _ "POST" "/ping" H1 H2 H3 H4 H5 H6 H7).
Defined.

(** After a batch activates without exception, a request whose path [p]
    is not "/", matches no route (neither an earlier one nor the compiled
    path of a record of the batch), while its trailing-slash variant (one
    '/' appended, or the trailing ones stripped) of at most 4300 characters
    matches the compiled path of a record of the batch, is answered with a
    redirect to that variant. *)
Theorem trailing_slash_redirect (endpoints : list Endpoint) (st : AppState)
  (e : Endpoint) (toks : list PathTok) (m p : string)
  (Hok : snd (_activate_routes (Ok endpoints) st) = Ok tt)
  (Hin : In e endpoints)
  (Hc : compile_path (get_path e) = Ok toks)
  (Hroot : p <> "/")
  (Hr : regex_match toks (redirect_path p) <> None)
  (Hshort : String.length (redirect_path p) <= 4300)
  (Hold : forall r, In r (routes st) -> regex_match (route_regex r) p = None)
  (Hnew : forall e' toks', In e' endpoints -> compile_path (get_path e') = Ok toks' ->
          regex_match toks' p = None) :
  dispatch (fst (_activate_routes (Ok endpoints) st)) (request m p) = Redirect (redirect_path p).
Proof.
  pose proof Hok as Hall. rewrite activate_routes_ok, loop_result in Hall.
  unfold dispatch.
  rewrite match_routes_none.
  2: { intros r Hr'. apply route_matches_none.
       apply activated_route in Hr' as [Hr'|[e' [He' [_ Hc']]]];
         [apply Hold, Hr' | exact (Hnew e' _ He' Hc')]. }
  cbn [req_path req_method request].
  apply String.eqb_neq in Hroot. rewrite Hroot.
  rewrite redirect_scan_true; [reflexivity| |].
  - intros r _. apply route_matches_short, Hshort.
  - destruct (regex_match toks (redirect_path p)) as [caps|] eqn:E; [|congruence].
    destruct (route_matches_some (route_for (next_frame st) e) m (redirect_path p) caps)
      as [k [Hk Hne]]; [|exact Hshort|].
    + unfold route_for, path_regex. cbn [route_regex]. rewrite Hc. exact E.
    + exists (route_for (next_frame st) e), k. split; [|split; assumption].
      rewrite activate_routes_routes, registrable_prefix_full, firstn_all by exact Hall.
      apply in_or_app. right. apply in_map. exact Hin.
Qed.

Lemma trailing_slash_redirect_witness :
  snd (_activate_routes (Ok [R1]) empty_app) = Ok tt /\ In R1 [R1] /\
  compile_path (get_path R1) = Ok [PLit "/r1"] /\
  "/r1/" <> "/" /\
  regex_match [PLit "/r1"] (redirect_path "/r1/") <> None /\
  String.length (redirect_path "/r1/") <= 4300 /\
  (forall r, In r (routes empty_app) -> regex_match (route_regex r) "/r1/" = None) /\
  (forall e' toks', In e' [R1] -> compile_path (get_path e') = Ok toks' ->
     regex_match toks' "/r1/" = None) /\
  dispatch (fst (_activate_routes (Ok [R1]) empty_app)) (request "GET" "/r1/") =
  Redirect (redirect_path "/r1/").
Proof.
  assert (H1 : snd (_activate_routes (Ok [R1]) empty_app) = Ok tt) by (vm_compute; reflexivity).
  assert (H2 : In R1 [R1]) by (left; reflexivity).
  assert (H3 : compile_path (get_path R1) = Ok [PLit "/r1"]) by (vm_compute; reflexivity).
  assert (H4 : "/r1/" <> "/") by discriminate.
  assert (H5 : regex_match [PLit "/r1"] (redirect_path "/r1/") <> None) by (vm_compute; discriminate).
  assert (H6 : String.length (redirect_path "/r1/") <= 4300) by (vm_compute; lia).
  assert (H7 : forall r, In r (routes empty_app) -> regex_match (route_regex r) "/r1/" = None)
    by (intros r []).
  assert (H8 : forall e' toks', In e' [R1] -> compile_path (get_path e') = Ok toks' ->
                 regex_match toks' "/r1/" = None).
  { intros e' toks' [<-|[]] Hc. vm_compute in Hc. injection Hc as <-. vm_compute. reflexivity. }
  do 8 (split; [assumption|]).
  exact (trailing_slash_redirect [R1] empty_app R1 _ "GET" "/r1/" H1 H2 H3 H4 H5 H6 H7 H8).
Defined.

(* ------------------------------------------------------------------ *)
(** ** Paths without parameters *)

Lemma scan_params_literal (s : string) (fuel : nat) :
  String.length s <= fuel -> contains "{" s = false -> scan_params fuel s = (s, []).
Proof.
  revert fuel; induction s as [|c s IH]; intros [|fuel] Hlen Hc;
    [reflexivity | reflexivity | simpl in Hlen; lia |].
  simpl in Hlen. cbn [contains] in Hc. apply orb_false_iff in Hc as [Hc1 Hc2].
  assert (Hp : param_at (String c s) = None).
  { unfold param_at. destruct (Ascii.eqb c "{"%char) eqn:E; [|reflexivity].
    apply Ascii.eqb_eq in E. subst c. revert Hc1. cbn [String.prefix].
    destruct (ascii_dec "{" "{"); [destruct s; discriminate | contradiction]. }
  cbn [scan_params]. rewrite Hp, IH by (lia || exact Hc2). reflexivity.
Qed.

Lemma string_app_empty_r (s : string) : s ++ EmptyString = s.
Proof. induction s as [|c s IH]; [reflexivity|]. change (String c (s ++ EmptyString) = String c s). by rewrite IH. Qed.

Lemma prefix_app (p t : string) : String.prefix p (p ++ t) = true.
Proof.
  induction p as [|c p IH]; [destruct t; reflexivity|].
  change (String.prefix (String c p) (String c (p ++ t)) = true). simpl.
  destruct (ascii_dec c c); [exact IH | contradiction].
Qed.

Lemma prefix_split (p q : string) : String.prefix p q = true -> q = p ++ str_drop (String.length p) q.
Proof.
  revert q; induction p as [|c p IH]; intros [|c' q]; simpl; try reflexivity; try discriminate.
  destruct (ascii_dec c c'); [|discriminate]. subst c'. intros H.
  change (String c q = String c (p ++ str_drop (String.length p) q)). by rewrite <- IH.
Qed.

Lemma str_drop_app (p t : string) : str_drop (String.length p) (p ++ t) = t.
Proof. induction p as [|c p IH]; [destruct t; reflexivity | exact IH]. Qed.

(** A record path without '{' compiles to itself as one literal, and it
    matches exactly the request path equal to it, or equal to it followed
    by a single newline (Python's [$] also matches before a final newline). *)
Theorem literal_path_matches (path q : string) (H : contains "{" path = false) :
  compile_path path = Ok [PLit path] /\
  (regex_match [PLit path] q <> None <-> q = path \/ q = path ++ str1 (chr 10)).
Proof.
  split.
  - unfold compile_path. rewrite scan_params_literal by (lia || exact H). reflexivity.
  - cbn [regex_match]. split.
    + destruct (String.prefix path q) eqn:Hp; [|congruence].
      destruct (at_end (str_drop (String.length path) q)) eqn:He; [|congruence]. intros _.
      apply prefix_split in Hp. unfold at_end in He.
      apply orb_true_iff in He as [He|He]; apply String.eqb_eq in He; rewrite He in Hp.
      * left. rewrite string_app_empty_r in Hp. exact Hp.
      * right. exact Hp.
    + intros [->| ->].
      * pose proof (prefix_app path "") as P. pose proof (str_drop_app path "") as D.
        rewrite string_app_empty_r in P, D. rewrite P, D. discriminate.
      * rewrite prefix_app, str_drop_app. discriminate.
Qed.

Lemma literal_path_matches_witness :
  contains "{" "/ping" = false /\
  compile_path "/ping" = Ok [PLit "/ping"] /\
  (regex_match [PLit "/ping"] ("/ping" ++ str1 (chr 10)) <> None <->
   "/ping" ++ str1 (chr 10) = "/ping" \/ "/ping" ++ str1 (chr 10) = "/ping" ++ str1 (chr 10)).
Proof.
  assert (H : contains "{" "/ping" = false) by reflexivity.
  split; [exact H | exact (literal_path_matches "/ping" ("/ping" ++ str1 (chr 10)) H)].
Defined.
